(** * Start-up script of the travel-agent bot (src/app.py)

    The module-level code of [app.py] is embedded as a computation in a
    state-and-exception monad.  Everything the script obtains from outside
    the process (environment variables, the agents service, the [tools]
    directory, [json.loads], the SDK's built-in tool definitions) is a field
    of a [World]; every outward call is appended to a trace, so that "before",
    "never" and "exactly once" are statements about that trace.  The
    calls that the script depends on for its control flow may raise.  The
    constructors of the SDK objects and of the bot are out of the sources at
    hand and are taken to return: the properties of whole runs are therefore
    stated for runs that return, or for what a call found in the trace
    carries, and never as a list of all that a run can do.

    The definitions come first: the script, the example worlds, and the
    orchestrator modelled from the specification.  The properties follow. *)

From Stdlib Require Import ZArith Lia Bool.
From stdpp Require Import gmap strings list fin_maps.

Open Scope string_scope.

Set Warnings "-register-all".

(** ** Python values *)

(** The values held by the [options] dict and produced by [json.loads]. *)
Inductive value : Type :=
| VNone
| VBool (b : bool)
| VInt (z : Z)
| VStr (s : string)
| VList (l : list value)
| VDict (d : list (string * value)).

(** [os.getenv] gives [None] for an unset variable. *)
Definition of_getenv (o : option string) : value :=
  match o with
  | Some s => VStr s
  | None => VNone
  end.

(** Truth value of an [os.getenv] result: [None] and [""] are false. *)
Definition truthy (o : option string) : bool :=
  match o with
  | None => false
  | Some EmptyString => false
  | Some (String _ _) => true
  end.

(** [str.endswith]. *)
Fixpoint endswith (s suffix : string) : bool :=
  String.eqb s suffix ||
  match s with
  | EmptyString => false
  | String _ s' => endswith s' suffix
  end.

(** ** Exceptions and outcomes *)

Inductive exn : Type :=
| Exception (msg : string)
| JSONDecodeError (doc : string)
| OSError (path : string)
| UnicodeDecodeError (path : string)
| HttpResponseError (operation : string)
| KeyError (key : string)
| AttributeError (attr : string).

Inductive outcome (A : Type) : Type :=
| Return (a : A)
| Raise (e : exn).
Arguments Return {A} a.
Arguments Raise {A} e.

(** ** Objects of the SDKs *)

Record Agent := mkAgent {
  agent_id : string;
  agent_name : option string
}.

(** Result of [project_client.agents.list_agents]. *)
Record OpenAIPageableListOfAgent := mkAgentPage {
  data : list Agent;
  has_more : bool
}.

Record DefaultAzureCredential := mkCredential {
  managed_identity_client_id : option string
}.

Record AzureOpenAI := mkAzureOpenAI {
  api_version : option string;
  azure_endpoint : option string;
  api_key : option string;
  azure_ad_token_provider : DefaultAzureCredential * string
}.

Record AIProjectClient := mkAIProjectClient {
  project_credential : DefaultAzureCredential;
  conn_str : option string
}.

Record BingClient := mkBingClient { bing_api_key : option string }.

Inductive GraphClient := mkGraphClient.
Inductive LoginDialog := mkLoginDialog.
Inductive DefaultConfig := mkDefaultConfig.
Inductive CloudAdapter := mkCloudAdapter (authentication : DefaultConfig).

Record CosmosDbPartitionedConfig := mkCosmosConfig {
  cosmos_db_endpoint : option string;
  database_id : option string;
  container_id : option string;
  auth_key : option string
}.

Record CosmosClient := mkCosmosClient {
  cosmos_url : option string;
  cosmos_auth : DefaultAzureCredential
}.

(** The two storage classes; both are handed to the state classes as a
    [Storage]. *)
Inductive Storage : Type :=
| CosmosDbPartitionedStorage (config : CosmosDbPartitionedConfig)
                             (client : option CosmosClient)
| MemoryStorage.

(** Storage objects live in a heap and are passed by reference. *)
Definition ref := nat.

Record UserState := mkUserState { user_storage : ref }.
Record ConversationState := mkConversationState { conversation_storage : ref }.

Record AssistantBot := mkAssistantBot {
  bot_conversation_state : ConversationState;
  bot_user_state : UserState;
  bot_aoai_client : AzureOpenAI;
  bot_project_client : AIProjectClient;
  bot_assistant_id : value;
  bot_bing_client : BingClient;
  bot_graph_client : GraphClient;
  bot_dialog : LoginDialog
}.

Inductive routes : Type :=
| messages_routes (adapter : CloudAdapter) (bot : AssistantBot)
| directline_routes
| file_routes (project_client : AIProjectClient)
| static_routes.

Record Application := mkApplication {
  middlewares : list string;
  app_routes : list routes
}.

(** ** The world outside the process *)

Record World := mkWorld {
  environ : gmap string string;
  (** [project_client.agents.list_agents(limit=...)]; [None]: the call raises *)
  list_agents : Z -> option OpenAIPageableListOfAgent;
  (** [project_client.agents.update_agent], given the dict as keywords *)
  update_agent : gmap string value -> option Agent;
  (** [project_client.agents.create_agent], given the dict as keywords *)
  create_agent : gmap string value -> option Agent;
  (** [os.listdir(path)] *)
  listdir : string -> option (list string);
  (** [open(path, "r")] followed by [f.read()]; [None]: one of them raises *)
  read_file : string -> option string;
  (** what they raise then: [OSError] when the file cannot be opened,
      [UnicodeDecodeError] when its content does not decode *)
  read_error : string -> exn;
  (** [json.loads(doc)]; [None]: the document is not valid JSON *)
  json_loads : string -> option value;
  (** [CodeInterpreterTool().definitions] *)
  CodeInterpreterTool_definitions : list value;
  (** [FileSearchTool().definitions] *)
  FileSearchTool_definitions : list value
}.

(** ** Trace, state and monad *)

Inductive event : Type :=
| EvListAgents (limit : Z)
| EvListdir (path : string)
| EvOpen (path : string)
| EvUpdateAgent (kwargs : gmap string value)
| EvCreateAgent (kwargs : gmap string value)
| EvAssistantBot (assistant_id : value).

Record State := mkState {
  heap : list Storage;
  trace : list event
}.

Definition M (A : Type) : Type := State -> outcome A * State.

Definition ret {A} (a : A) : M A := fun st => (Return a, st).

Definition raise {A} (e : exn) : M A := fun st => (Raise e, st).

Definition bind {A B} (c : M A) (k : A -> M B) : M B :=
  fun st =>
    match c st with
    | (Return a, st') => k a st'
    | (Raise e, st') => (Raise e, st')
    end.

Notation "x <- c ;; k" := (bind c (fun x => k))
  (at level 100, c at next level, right associativity).
Notation "c ;;; k" := (bind c (fun _ => k))
  (at level 100, right associativity).

Definition emit (e : event) : M unit :=
  fun st => (Return tt, mkState (heap st) (trace st ++ [e])).

(** Allocation of a storage object: its reference is the next free cell. *)
Definition new (o : Storage) : M ref :=
  fun st => (Return (length (heap st)), mkState (heap st ++ [o]) (trace st)).

(** [storage.client = c]: attribute assignment on the object behind [r].
    The script assigns it on the Cosmos storage only; the in-memory storage
    has no such attribute in the model and is left as it is. *)
Definition set_client (r : ref) (c : CosmosClient) : M unit :=
  fun st =>
    match heap st !! r with
    | Some (CosmosDbPartitionedStorage cfg _) =>
        (Return tt,
         mkState (<[r := CosmosDbPartitionedStorage cfg (Some c)]> (heap st))
                 (trace st))
    | Some MemoryStorage => (Return tt, st)
    | None => (Raise (AttributeError "client"), st)
    end.

(** An outward call: logged, then answered by the world or raising. *)
Definition call {A} (e : event) (answer : option A) (err : exn) : M A :=
  emit e ;;;
  match answer with
  | Some a => ret a
  | None => raise err
  end.

(** ** The script *)

Section Script.

Variable w : World.

(** [os.getenv(key)]. *)
Definition getenv (key : string) : option string := environ w !! key.

(** Lines 48-74: configuration, adapter, credential and service clients. *)
Definition config : DefaultConfig := mkDefaultConfig.

Definition adapter : CloudAdapter := mkCloudAdapter config.

Definition credential : DefaultAzureCredential :=
  mkCredential (getenv "MicrosoftAppId").

Definition aoai_client : AzureOpenAI :=
  mkAzureOpenAI (getenv "AZURE_OPENAI_API_VERSION")
                (getenv "AZURE_OPENAI_API_ENDPOINT")
                (getenv "AZURE_OPENAI_API_KEY")
                (credential, "https://cognitiveservices.azure.com/.default").

Definition project_client : AIProjectClient :=
  mkAIProjectClient credential (getenv "AZURE_AI_PROJECT_CONNECTION_STRING").

Definition bing_client : BingClient := mkBingClient (getenv "AZURE_BING_API_KEY").

Definition graph_client : GraphClient := mkGraphClient.

(** Lines 76-89: conversation history storage.  The constructors of the
    storage classes and of the Cosmos client (line 87) are taken to return. *)
Definition conversation_history_storage : M ref :=
  if truthy (getenv "AZURE_COSMOSDB_ENDPOINT") then
    storage <- new (CosmosDbPartitionedStorage
                      (mkCosmosConfig (getenv "AZURE_COSMOSDB_ENDPOINT")
                                      (getenv "AZURE_COSMOSDB_DATABASE_ID")
                                      (getenv "AZURE_COSMOSDB_CONTAINER_ID")
                                      (getenv "AZURE_COSMOSDB_AUTH_KEY"))
                      None) ;;
    set_client storage
               (mkCosmosClient (getenv "AZURE_COSMOSDB_ENDPOINT") credential) ;;;
    ret storage
  else
    new MemoryStorage.

(** Lines 91-93: conversation and user state over the one [storage]. *)
Definition create_state (storage : ref) : UserState * ConversationState :=
  (mkUserState storage, mkConversationState storage).

(** Lines 100-110: the [options] dict literal. *)
Definition initial_options : gmap string value :=
  <["headers" := VDict [("x-ms-enable-preview", VStr "true")]]>
  (<["tools" := VList (CodeInterpreterTool_definitions w
                       ++ FileSearchTool_definitions w)]>
  (<["instructions" := of_getenv (getenv "LLM_INSTRUCTIONS")]>
  (<["model" := of_getenv (getenv "AZURE_OPENAI_DEPLOYMENT_NAME")]>
  (<["name" := of_getenv (getenv "AZURE_OPENAI_AGENT_NAME")]> ∅)))).

(** [options["tools"].append(v)]. *)
Definition tools_append (options : gmap string value) (v : value)
  : M (gmap string value) :=
  match options !! "tools" with
  | Some (VList l) => ret (<["tools" := VList (l ++ [v])]> options)
  | Some _ => raise (AttributeError "append")
  | None => raise (KeyError "tools")
  end.

(** Lines 112-115: the loop over the listing of the [tools] directory. *)
Fixpoint load_tools (listing : list string) (options : gmap string value)
  : M (gmap string value) :=
  match listing with
  | [] => ret options
  | tool :: rest =>
      if endswith tool ".json" then
        doc <- call (EvOpen ("tools/" +:+ tool))
                    (read_file w ("tools/" +:+ tool))
                    (read_error w ("tools/" +:+ tool)) ;;
        v <- match json_loads w doc with
             | Some v => ret v
             | None => raise (JSONDecodeError doc)
             end ;;
        options <- tools_append options v ;;
        load_tools rest options
      else
        load_tools rest options
  end.

(** Lines 119-123: the loop over [agents.data]; the second component is the
    module variable [agent], rebound by the loop. *)
Fixpoint for_agent (agents_data : list Agent) (options : gmap string value)
         (agent : option Agent) : M (gmap string value * option Agent) :=
  match agents_data with
  | [] => ret (options, agent)
  | agent :: rest =>
      if decide (agent_name agent = getenv "AZURE_OPENAI_AGENT_NAME") then
        let options := <["assistant_id" := VStr (agent_id agent)]> options in
        agent <- call (EvUpdateAgent options) (update_agent w options)
                      (HttpResponseError "update_agent") ;;
        ret (options, Some agent)
      else
        for_agent rest options (Some agent)
  end.

(** Lines 117-126: create the agent if it does not exist. *)
Definition provision (agents : OpenAIPageableListOfAgent)
           (options : gmap string value) : M (gmap string value * option Agent) :=
  (if has_more agents then raise (Exception "Too many agents") else ret tt) ;;;
  r <- for_agent (data agents) options None ;;
  let '(options, agent) := r in
  match options !! "assistant_id" with
  | None =>
      agent <- call (EvCreateAgent options) (create_agent w options)
                    (HttpResponseError "create_agent") ;;
      ret (<["assistant_id" := VStr (agent_id agent)]> options, Some agent)
  | Some _ => ret (options, agent)
  end.

(** Lines 40-46. *)
Definition create_app (adapter : CloudAdapter) (bot : AssistantBot)
           (project_client : AIProjectClient) : Application :=
  mkApplication ["aiohttp_error_middleware"]
                [messages_routes adapter bot; directline_routes;
                 file_routes project_client; static_routes].

(** The module's global variables once the script has run. *)
Record Globals := mkGlobals {
  storage : ref;
  user_state : UserState;
  conversation_state : ConversationState;
  dialog : LoginDialog;
  agents : OpenAIPageableListOfAgent;
  options : gmap string value;
  agent : option Agent;
  bot : AssistantBot;
  app : Application
}.

(** The module body, lines 48-138, in the order of the source. *)
Definition main : M Globals :=
  storage <- conversation_history_storage ;;
  let '(user_state, conversation_state) := create_state storage in
  let dialog := mkLoginDialog in
  agents <- call (EvListAgents 100) (list_agents w 100)
                 (HttpResponseError "list_agents") ;;
  let options := initial_options in
  listing <- call (EvListdir "tools") (listdir w "tools") (OSError "tools") ;;
  options <- load_tools listing options ;;
  r <- provision agents options ;;
  let '(options, agent) := r in
  assistant_id <- match options !! "assistant_id" with
                  | Some v => ret v
                  | None => raise (KeyError "assistant_id")
                  end ;;
  emit (EvAssistantBot assistant_id) ;;;
  let bot := mkAssistantBot conversation_state user_state aoai_client
                            project_client assistant_id bing_client
                            graph_client dialog in
  let app := create_app adapter bot project_client in
  ret (mkGlobals storage user_state conversation_state dialog agents options
                 agent bot app).

(** A run of the script from the empty heap and trace. *)
Definition run : outcome Globals * State := main (mkState [] []).

End Script.

(** ** What the manifest should be, in the words of the specification *)

Section Manifest.

Variable w : World.

(** The descriptor files: the entries of the listing that end in ".json". *)
Definition descriptor_files (listing : list string) : list string :=
  filter (fun tool => endswith tool ".json" = true) listing.

(** One entry per descriptor file, parsed as JSON; reading stops at the first
    file that cannot be read or parsed.  The events are the files opened. *)
Fixpoint descriptors (files : list string) : list event * outcome (list value) :=
  match files with
  | [] => ([], Return [])
  | f :: rest =>
      match read_file w ("tools/" +:+ f) with
      | None => ([EvOpen ("tools/" +:+ f)], Raise (read_error w ("tools/" +:+ f)))
      | Some doc =>
          match json_loads w doc with
          | None => ([EvOpen ("tools/" +:+ f)], Raise (JSONDecodeError doc))
          | Some v =>
              let '(evs, r) := descriptors rest in
              (EvOpen ("tools/" +:+ f) :: evs,
               match r with
               | Return vs => Return (v :: vs)
               | Raise e => Raise e
               end)
          end
      end
  end.

(** The built-in definitions followed by the parsed descriptors. *)
Definition manifest (vs : list value) : list value :=
  CodeInterpreterTool_definitions w ++ FileSearchTool_definitions w ++ vs.

End Manifest.

(** ** Classes of events *)

Definition is_provisioning (e : event) : bool :=
  match e with
  | EvUpdateAgent _ | EvCreateAgent _ => true
  | _ => false
  end.

Definition is_filesystem (e : event) : bool :=
  match e with
  | EvListdir _ | EvOpen _ => true
  | _ => false
  end.

Definition is_bot (e : event) : bool :=
  match e with
  | EvAssistantBot _ => true
  | _ => false
  end.

(** ** The cases of a run *)

Section Cases.

Variable w : World.

(** The agent name the script is configured with. *)
Definition configured_name : option string := getenv w "AZURE_OPENAI_AGENT_NAME".

(** The storage object the script ends up with. *)
Definition storage_object : Storage :=
  if truthy (getenv w "AZURE_COSMOSDB_ENDPOINT") then
    CosmosDbPartitionedStorage
      (mkCosmosConfig (getenv w "AZURE_COSMOSDB_ENDPOINT")
                      (getenv w "AZURE_COSMOSDB_DATABASE_ID")
                      (getenv w "AZURE_COSMOSDB_CONTAINER_ID")
                      (getenv w "AZURE_COSMOSDB_AUTH_KEY"))
      (Some (mkCosmosClient (getenv w "AZURE_COSMOSDB_ENDPOINT") (credential w)))
  else MemoryStorage.

(** The module's globals after a run that bound [options], [agent] and the
    assistant id as given. *)
Definition globals_of (page : OpenAIPageableListOfAgent)
           (options : gmap string value) (agent : option Agent)
           (assistant_id : value) : Globals :=
  let bot := mkAssistantBot (mkConversationState 0) (mkUserState 0)
                            (aoai_client w) (project_client w) assistant_id
                            (bing_client w) graph_client mkLoginDialog in
  mkGlobals 0 (mkUserState 0) (mkConversationState 0) mkLoginDialog page
            options agent bot (create_app adapter bot (project_client w)).

(** Every run, case by case on what the world answers. *)
Definition run_cases : outcome Globals * State :=
  match list_agents w 100 with
  | None =>
      (Raise (HttpResponseError "list_agents"),
       mkState [storage_object] [EvListAgents 100])
  | Some page =>
      match listdir w "tools" with
      | None =>
          (Raise (OSError "tools"),
           mkState [storage_object] [EvListAgents 100; EvListdir "tools"])
      | Some listing =>
          let '(evs, r) := descriptors w (descriptor_files listing) in
          let loaded : list event := EvListAgents 100 :: EvListdir "tools" :: evs in
          match r with
          | Raise e => (Raise e, mkState [storage_object] loaded)
          | Return vs =>
              let options := <["tools" := VList (manifest w vs)]> (initial_options w) in
              if has_more page then
                (Raise (Exception "Too many agents"),
                 mkState [storage_object] loaded)
              else
                match list_find (fun a => agent_name a = configured_name)
                                (data page) with
                | Some (_, a) =>
                    let options' := <["assistant_id" := VStr (agent_id a)]> options in
                    match update_agent w options' with
                    | None =>
                        (Raise (HttpResponseError "update_agent"),
                         mkState [storage_object]
                                 (loaded ++ [EvUpdateAgent options']))
                    | Some a' =>
                        (Return (globals_of page options' (Some a')
                                            (VStr (agent_id a))),
                         mkState [storage_object]
                                 (loaded ++ [EvUpdateAgent options';
                                             EvAssistantBot (VStr (agent_id a))]))
                    end
                | None =>
                    match create_agent w options with
                    | None =>
                        (Raise (HttpResponseError "create_agent"),
                         mkState [storage_object]
                                 (loaded ++ [EvCreateAgent options]))
                    | Some a' =>
                        (Return (globals_of page
                                   (<["assistant_id" := VStr (agent_id a')]> options)
                                   (Some a') (VStr (agent_id a'))),
                         mkState [storage_object]
                                 (loaded ++ [EvCreateAgent options;
                                             EvAssistantBot (VStr (agent_id a'))]))
                    end
                end
          end
      end
  end.

(** A descriptor file and the entry it contributes. *)
Definition parsed (f : string) (v : value) : Prop :=
  exists doc, read_file w ("tools/" +:+ f) = Some doc /\ json_loads w doc = Some v.

End Cases.

(** ** Observations on traces and manifests *)

(** The calls of a trace that create or update an agent. *)
Definition provisioning_calls (tr : list event) : list event :=
  filter (fun ev => is_provisioning ev = true) tr.

(** The keyword arguments of a call that creates or updates an agent. *)
Definition kwargs_of (ev : event) : option (gmap string value) :=
  match ev with
  | EvUpdateAgent kwargs | EvCreateAgent kwargs => Some kwargs
  | _ => None
  end.

Definition filesystem_calls (tr : list event) : list event :=
  filter (fun ev => is_filesystem ev = true) tr.

(** The listings of the agents among the calls of a trace. *)
Definition is_listing (e : event) : bool :=
  match e with
  | EvListAgents _ => true
  | _ => false
  end.

(** A descriptor file that can be read and whose content parses. *)
Definition loadable (w : World) (f : string) : Prop :=
  exists doc v, read_file w ("tools/" +:+ f) = Some doc /\ json_loads w doc = Some v.

(** The [options] dict once the descriptors [vs] have been appended. *)
Definition loaded_options (w : World) (vs : list value) : gmap string value :=
  <["tools" := VList (manifest w vs)]> (initial_options w).

(** The classes of tool the agent is advertised with. *)
Inductive tool_class : Type :=
| code_execution
| file_searching
| web_search
| directory_lookup.

(** A manifest offers a class when one of its entries is of that class. *)
Definition offers (class_of : value -> tool_class) (tools : list value)
           (c : tool_class) : Prop :=
  exists t, t ∈ tools /\ class_of t = c.

(** ** Example worlds *)

Module Examples.

Definition code_interpreter : value := VDict [("type", VStr "code_interpreter")].
Definition file_search : value := VDict [("type", VStr "file_search")].

(** A [json.loads] that knows two documents. *)
Definition loads (doc : string) : option value :=
  if String.eqb doc "{}" then Some (VDict [])
  else if String.eqb doc "[]" then Some (VList [])
  else None.

(** A service that answers every update with the agent addressed and every
    creation with a new agent ["asst_new"]. *)
Definition updated (kwargs : gmap string value) : option Agent :=
  match kwargs !! "assistant_id" with
  | Some (VStr i) => Some (mkAgent i (Some "travel"))
  | _ => None
  end.

Definition created (kwargs : gmap string value) : option Agent :=
  Some (mkAgent "asst_new" (Some "travel")).

Definition world (env : gmap string string) (page : OpenAIPageableListOfAgent)
           (listing : list string) (files : string -> option string) : World :=
  mkWorld env (fun _ => Some page) updated created
          (fun path => if String.eqb path "tools" then Some listing else None)
          files OSError loads [code_interpreter] [file_search].

Definition env_travel : gmap string string :=
  <["AZURE_OPENAI_AGENT_NAME" := "travel"]> ∅.

Definition all_empty_objects (path : string) : option string := Some "{}".

(** Two listed agents carry the configured name. *)
Definition page_twins : OpenAIPageableListOfAgent :=
  mkAgentPage [mkAgent "asst_0" (Some "other"); mkAgent "asst_1" (Some "travel");
               mkAgent "asst_2" (Some "travel")] false.

Definition w_twins : World :=
  world env_travel page_twins ["bing.json"; "README.md"] all_empty_objects.

(** The listing is cut off at the limit. *)
Definition page_more : OpenAIPageableListOfAgent :=
  mkAgentPage [mkAgent "asst_1" (Some "travel")] true.

Definition w_more : World :=
  world env_travel page_more ["bing.json"] all_empty_objects.

(** No listed agent carries the configured name; the [tools] directory is
    empty. *)
Definition page_others : OpenAIPageableListOfAgent :=
  mkAgentPage [mkAgent "asst_0" (Some "other")] false.

Definition w_bare : World := world env_travel page_others [] all_empty_objects.


(** The second descriptor is not JSON. *)
Definition broken_files (path : string) : option string :=
  if String.eqb path "tools/graph.json" then Some "{" else Some "{}".


(** The agent name is not configured; every listed agent has a name. *)
Definition w_nameless : World :=
  world ∅ page_twins ["bing.json"] all_empty_objects.


(** The listing is cut off at the limit and a descriptor is not JSON. *)
Definition w_more_broken : World :=
  world env_travel page_more ["bing.json"; "graph.json"] broken_files.

(** There is no [tools] directory. *)
Definition w_no_tools : World :=
  mkWorld env_travel (fun _ => Some page_twins) updated created
          (fun _ => None) all_empty_objects OSError loads
          [code_interpreter] [file_search].

(** The service refuses every update. *)
Definition w_update_fails : World :=
  mkWorld env_travel (fun _ => Some page_twins) (fun _ => None) created
          (fun path => if String.eqb path "tools" then Some [] else None)
          all_empty_objects OSError loads [code_interpreter] [file_search].





End Examples.

(** * The Agent Turn Orchestrator

    The bot that [app.py] constructs (class [AssistantBot] of package [bots])
    is not part of the sources at hand.  The components below are modelled
    from the specification, sections 3 to 5. *)

Module Orchestrator.

(** ** Tool Dispatcher (specification 4.4) *)

(** Modelled from the spec: a Tool Call (section 3) carries a call identifier,
    a tool name and an argument payload; class [AssistantBot] is missing. *)
Record ToolCall := mkToolCall {
  tc_id : string;
  tc_name : string;
  tc_arguments : value
}.

(** Modelled from the spec: the kinds of tool execution error of section 7
    (handler exception, schema-validation failure, handler timeout), and the
    failure of the registry to resolve the name (section 2). *)
Inductive error_kind : Type :=
| unknown_tool
| validation_failure
| handler_exception (e : exn)
| handler_timeout.

(** Modelled from the spec: the payload of a Tool Output (section 3), a
    success payload or an error payload. *)
Inductive payload : Type :=
| Success (result : value)
| Error (kind : error_kind).

(** Modelled from the spec: a Tool Output (section 3), keyed by the
    identifier of the call it answers. *)
Record ToolOutput := mkToolOutput {
  out_call_id : string;
  out_payload : payload
}.

(** Modelled from the spec: what a handler call does within its time bound
    (section 4.4): it returns, raises, or exceeds the bound. *)
Inductive handler_result : Type :=
| Returned (v : value)
| Raised (e : exn)
| TimedOut.

(** Modelled from the spec: an entry of the tool registry (section 4.4): the
    declared schema as a validator of arguments, the resource whose Identity
    Token the handler requires, if any, and the handler. *)
Record Tool := mkTool {
  schema : value -> bool;
  resource : option string;
  handler : value -> option string -> handler_result
}.

(** Modelled from the spec: [invoke(tool_name, arguments, token?)] of
    section 4.4.  The arguments are validated before invocation and a
    validation failure does not invoke the handler; a handler exception or
    timeout becomes an error payload. *)
Definition invoke (registry : gmap string Tool) (tool_name : string)
           (arguments : value) (token : option string) : payload :=
  match registry !! tool_name with
  | None => Error unknown_tool
  | Some tool =>
      if schema tool arguments then
        match handler tool arguments token with
        | Returned v => Success v
        | Raised e => Error (handler_exception e)
        | TimedOut => Error handler_timeout
        end
      else Error validation_failure
  end.

(** Modelled from the spec: the Tool Output of one Tool Call, keyed by its
    call identifier (sections 3 and 4.2). *)
Definition answer (registry : gmap string Tool) (call : ToolCall)
           (token : option string) : ToolOutput :=
  mkToolOutput (tc_id call)
               (invoke registry (tc_name call) (tc_arguments call) token).

(** ** Auth Gate (specification 4.3) *)

(** Modelled from the spec: an Identity Token (section 3), valid until its
    stated expiry. *)
Record IdentityToken := mkToken {
  bearer : string;
  expiry : nat
}.

(** Modelled from the spec: [Outcome{Proceed(token) | Suspend(sign_in_prompt)}]
    of section 4.3; the prompt names the resource to sign in to. *)
Inductive Outcome : Type :=
| Proceed (token : option string)
| Suspend (sign_in_prompt : string).

(** Modelled from the spec: [authorize(tool_call)] of section 4.3 over the
    per-(user, resource) token cache: a call whose tool needs no token
    proceeds; one whose resource has a cached token that has not expired
    proceeds with it; any other suspends the turn. *)
Definition authorize (registry : gmap string Tool)
           (cache : gmap (string * string) IdentityToken)
           (user : string) (now : nat) (call : ToolCall) : Outcome :=
  match registry !! tc_name call with
  | None => Proceed None
  | Some tool =>
      match resource tool with
      | None => Proceed None
      | Some r =>
          match cache !! (user, r) with
          | Some tok => if Nat.ltb now (expiry tok) then Proceed (Some (bearer tok))
                        else Suspend r
          | None => Suspend r
          end
      end
  end.

(** ** Run Driver (specification 4.2) *)

(** Modelled from the spec: the states of a Run (section 3);
    [requires_action] carries the pending Tool Calls. *)
Inductive RunStatus : Type :=
| queued
| in_progress
| requires_action (calls : list ToolCall)
| completed
| failed (reason : string)
| cancelled
| expired.

(** Modelled from the spec: a turn parked by the Auth Gate (section 4.3): the
    outputs of the calls already resolved and the calls still pending, the
    first of which awaits the sign-in. *)
Record Parked := mkParked {
  resolved : list ToolOutput;
  pending : list ToolCall
}.

(** Modelled from the spec: the result of resolving one batch of pending
    Tool Calls (step 3 of section 4.2). *)
Inductive Batch : Type :=
| Resolved (outputs : list ToolOutput)
| Suspended (sign_in_prompt : string) (parked : Parked).

(** Modelled from the spec: step 3 of section 4.2; for each pending Tool
    Call, in order, the Auth Gate is consulted before the Tool Dispatcher and
    one Tool Output is collected; a suspension parks the rest. *)
Fixpoint resolve (registry : gmap string Tool)
         (cache : gmap (string * string) IdentityToken)
         (user : string) (now : nat)
         (calls : list ToolCall) (collected : list ToolOutput) : Batch :=
  match calls with
  | [] => Resolved collected
  | call :: rest =>
      match authorize registry cache user now call with
      | Proceed token =>
          resolve registry cache user now rest
                  (collected ++ [answer registry call token])
      | Suspend prompt => Suspended prompt (mkParked collected (call :: rest))
      end
  end.

(** Modelled from the spec: the resumption of a parked turn on a sign-in
    completion event (section 4.3): the token is cached and the batch goes on
    from the pending call, without re-running the calls already resolved. *)
Definition resume (registry : gmap string Tool)
           (cache : gmap (string * string) IdentityToken)
           (user : string) (now : nat) (parked : Parked)
           (signed_in : string) (token : IdentityToken) : Batch :=
  resolve registry (<[(user, signed_in) := token]> cache) user now
          (pending parked) (resolved parked).

(** Modelled from the spec: what the Run Driver does to the backend and the
    channel while driving a Run (section 4.2). *)
Inductive action : Type :=
| Observed (status : RunStatus)
| Submitted (outputs : list ToolOutput)
| Prompted (sign_in_prompt : string)
| Cancelled.

(** Modelled from the spec: the outcome of driving a Run (steps 4 to 6 of
    section 4.2, and the suspension of section 4.3). *)
Inductive RunResult : Type :=
| Succeeded
| Failed (status : RunStatus)
| TimedOutRun
| AwaitingAuth (parked : Parked).

(** Modelled from the spec: step 2 of section 4.2, observing the Run until it
    leaves [queued] and [in_progress], at most [budget] times. *)
Fixpoint wait (status_at : nat -> RunStatus) (budget tick : nat)
  : option RunStatus :=
  match budget with
  | 0 => None
  | S budget' =>
      match status_at tick with
      | queued | in_progress => wait status_at budget' (S tick)
      | status => Some status
      end
  end.

(** Modelled from the spec: the driving loop of section 4.2.  The backend is
    the status it reports at each observation after the submissions made so
    far; [rounds] is the maximum number of [requires_action] round-trips and
    [budget] the maximum number of observations of one wait.  A
    [requires_action] without pending calls is not resumed. *)
Fixpoint drive (registry : gmap string Tool)
         (cache : gmap (string * string) IdentityToken)
         (user : string) (now : nat)
         (backend : list (list ToolOutput) -> nat -> RunStatus)
         (budget rounds : nat) (submissions : list (list ToolOutput))
  : list action * RunResult :=
  match wait (backend submissions) budget 0 with
  | None => ([Cancelled], TimedOutRun)
  | Some (requires_action calls) =>
      match rounds with
      | 0 => ([Observed (requires_action calls); Cancelled], TimedOutRun)
      | S rounds' =>
          match calls with
          | [] =>
              let '(log, result) :=
                drive registry cache user now backend budget rounds' submissions in
              (Observed (requires_action []) :: log, result)
          | _ :: _ =>
              match resolve registry cache user now calls [] with
              | Resolved outputs =>
                  let '(log, result) :=
                    drive registry cache user now backend budget rounds'
                          (submissions ++ [outputs]) in
                  (Observed (requires_action calls) :: Submitted outputs :: log,
                   result)
              | Suspended prompt parked =>
                  ([Observed (requires_action calls); Prompted prompt],
                   AwaitingAuth parked)
              end
          end
      end
  | Some completed => ([Observed completed], Succeeded)
  | Some status => ([Observed status], Failed status)
  end.

(** ** State Store Adapter (specification 4.5) *)

(** Modelled from the spec: the state of a Conversation Session (section 3),
    a reference to exactly one remote Thread. *)
Record SessionState := mkSession { thread_id : nat }.

(** Modelled from the spec: the result [ok|conflict] of a write
    (section 4.5). *)
Inductive put_result : Type :=
| ok
| conflict.

(** Modelled from the spec: [get(conversation_id)] of section 4.5; the state
    comes with the version last written. *)
Definition get (store : gmap string (SessionState * nat))
           (conversation_id : string) : option (SessionState * nat) :=
  store !! conversation_id.

(** Modelled from the spec: [put(conversation_id, SessionState,
    expected_version)] of section 4.5, with optimistic concurrency: the write
    takes place only if the version last read is the current one; an absent
    key has version 0. *)
Definition put (store : gmap string (SessionState * nat))
           (conversation_id : string) (state : SessionState)
           (expected_version : nat)
  : gmap string (SessionState * nat) * put_result :=
  let current := match store !! conversation_id with
                 | Some (_, version) => version
                 | None => 0
                 end in
  if decide (current = expected_version)
  then (<[conversation_id := (state, S current)]> store, ok)
  else (store, conflict).

(** ** Turn Orchestrator (specification 4.1) *)

(** Modelled from the spec: a message of a Thread (glossary): who wrote it
    and its text. *)
Record Message := mkMessage {
  from_user : bool;
  text : string
}.

(** Modelled from the spec: the state store, the Threads of the agent backend
    (each an append-only log of messages, section 3), and the record of the
    Threads created, each with the conversation it was created for. *)
Record System := mkSystem {
  sessions : gmap string (SessionState * nat);
  threads : list (list Message);
  creations : list (string * nat)
}.

(** Modelled from the spec: the reply handed to the channel (section 4.1):
    the agent's newest messages, or an apology. *)
Inductive ChannelReply : Type :=
| Reply (texts : list string)
| Apology.

(** Modelled from the spec: the first step of [handle_turn] (section 4.1):
    the Thread id of the Conversation Session is fetched from the State
    Store; if absent, a new remote Thread is created and the mapping is
    persisted, first writer wins. *)
Definition thread_for (sys : System) (conversation_id : string) : System * nat :=
  match get (sessions sys) conversation_id with
  | Some (session, _) => (sys, thread_id session)
  | None =>
      let t := length (threads sys) in
      let created := mkSystem (sessions sys) (threads sys ++ [[]])
                              (creations sys ++ [(conversation_id, t)]) in
      match put (sessions created) conversation_id (mkSession t) 0 with
      | (store, ok) => (mkSystem store (threads created) (creations created), t)
      | (_, conflict) =>
          match get (sessions created) conversation_id with
          | Some (session, _) => (created, thread_id session)
          | None => (created, t)
          end
      end
  end.

(** Modelled from the spec: appending messages to a Thread of the backend. *)
Definition append_messages (sys : System) (t : nat) (new : list Message) : System :=
  match threads sys !! t with
  | Some log => mkSystem (sessions sys) (<[t := (log ++ new)%list]> (threads sys))
                         (creations sys)
  | None => sys
  end.

Section Turns.

(** The Run Driver as the Turn Orchestrator sees it: from the Thread and its
    messages to the result of the Run and the agent's new messages. *)
Variable run_driver : nat -> list Message -> RunResult * list Message.

(** Modelled from the spec: [handle_turn(conversation_id, user_id,
    message_text)] of section 4.1: resolve or create the Thread, append the
    user's message, delegate to the Run Driver, and reply with the agent's
    newest messages or an apology. *)
Definition handle_turn (sys : System) (conversation_id user_id message_text : string)
  : System * ChannelReply :=
  let '(sys, t) := thread_for sys conversation_id in
  let sys := append_messages sys t [mkMessage true message_text] in
  match run_driver t (default [] (threads sys !! t)) with
  | (Succeeded, newest) =>
      (append_messages sys t newest, Reply (map text newest))
  | (_, _) => (sys, Apology)
  end.

(** Modelled from the spec: a sequence of turns, each an inbound
    [(conversation_id, user_id, message_text)] of section 6, handled one
    after the other. *)
Fixpoint handle_turns (sys : System) (inbound : list (string * string * string))
  : System :=
  match inbound with
  | [] => sys
  | (conversation_id, user_id, message_text) :: rest =>
      handle_turns (fst (handle_turn sys conversation_id user_id message_text)) rest
  end.

End Turns.

(** The Threads created for a conversation. *)
Definition threads_of (sys : System) (conversation_id : string) : list nat :=
  map snd (filter (fun c => fst c = conversation_id) (creations sys)).

(** The system before any turn. *)
Definition initial : System := mkSystem ∅ [] [].

(** ** Notions used to state the properties *)

(** A Conversation Session with a persisted Thread has had exactly that
    Thread created for it, and one without has had none. *)
Definition consistent (sys : System) : Prop :=
  forall c, threads_of sys c =
            match sessions sys !! c with
            | Some (session, _) => [thread_id session]
            | None => []
            end.

(** A submission directly follows the observation of a [requires_action]
    with pending calls, answers them identifier by identifier, and is the
    only one to follow that observation. *)
Fixpoint well_answered (log : list action) : Prop :=
  match log with
  | [] => True
  | Observed (requires_action calls) :: Submitted outputs :: rest =>
      calls <> [] /\ map out_call_id outputs = map tc_id calls /\
      well_answered rest
  | Submitted _ :: _ => False
  | _ :: rest => well_answered rest
  end.

(** How a tool fails on given arguments and token, and the kind of error. *)
Inductive fails (tool : Tool) (arguments : value) (token : option string)
  : error_kind -> Prop :=
| fails_validation :
    schema tool arguments = false ->
    fails tool arguments token validation_failure
| fails_exception (e : exn) :
    schema tool arguments = true ->
    handler tool arguments token = Raised e ->
    fails tool arguments token (handler_exception e)
| fails_timeout :
    schema tool arguments = true ->
    handler tool arguments token = TimedOut ->
    fails tool arguments token handler_timeout.

Section Gate.

Variable registry : gmap string Tool.
Variable user : string.
Variable now : nat.

(** The Auth Gate lets the call proceed and the output is the dispatcher's
    answer to it. *)
Definition answered (cache : gmap (string * string) IdentityToken)
           (call : ToolCall) (output : ToolOutput) : Prop :=
  exists token, authorize registry cache user now call = Proceed token /\
                output = answer registry call token.

Definition authorized (cache : gmap (string * string) IdentityToken)
           (call : ToolCall) : Prop :=
  exists token, authorize registry cache user now call = Proceed token.

End Gate.

(** ** Examples *)

(** A web search that needs no token, a directory lookup that needs a token
    for the directory, and a tool whose handler raises. *)
Definition flaky : Tool :=
  mkTool (fun _ => true) None (fun _ _ => Raised (Exception "boom")).

Definition example_registry : gmap string Tool :=
  <["bing_search" := mkTool (fun _ => true) None
                            (fun _ _ => Returned (VStr "results"))]>
  (<["graph_lookup" := mkTool (fun _ => true) (Some "graph")
                              (fun _ _ => Returned (VStr "people"))]>
  (<["flaky" := flaky]> ∅)).

Definition example_calls : list ToolCall :=
  [mkToolCall "call_1" "bing_search" VNone;
   mkToolCall "call_2" "flaky" VNone;
   mkToolCall "call_3" "bing_search" VNone].

(** A Run Driver that always succeeds with one message of the agent. *)
Definition example_driver (t : nat) (log : list Message)
  : RunResult * list Message :=
  (Succeeded, [mkMessage false "hello"]).

End Orchestrator.

(** * Properties of the start-up script *)

(** ** Basic facts *)

Lemma endswith_unfold (s suffix : string) :
  endswith s suffix =
  String.eqb s suffix ||
  match s with
  | EmptyString => false
  | String _ s' => endswith s' suffix
  end.
Proof. by destruct s. Qed.

Lemma endswith_app (s suffix : string) :
  endswith s suffix = true <-> exists p, s = p +:+ suffix.
Proof.
  induction s as [|c s IH]; rewrite endswith_unfold.
  - rewrite orb_false_r, String.eqb_eq. split.
    + intros <-. by exists "".
    + intros [p Hp]. destruct p; [done | discriminate].
  - rewrite orb_true_iff, String.eqb_eq, IH. split.
    + intros [<- | [p ->]]; [by exists "" | by exists (String c p)].
    + intros [[|c' p] Hp]; simpl in Hp; [by left | right].
      injection Hp as -> ->. by exists p.
Qed.

Lemma state_eta (st : State) : mkState (heap st) (trace st) = st.
Proof. by destruct st. Qed.

Section Facts.

Variable w : World.

Lemma manifest_nil_app (vs : list value) :
  (manifest w [] ++ vs)%list = manifest w vs.
Proof. unfold manifest. by rewrite app_nil_r, <- app_assoc. Qed.

Lemma initial_options_tools :
  initial_options w !! "tools" = Some (VList (manifest w [])).
Proof.
  unfold initial_options, manifest.
  rewrite lookup_insert_ne by done. rewrite lookup_insert_eq.
  by rewrite app_nil_r.
Qed.

Lemma initial_options_assistant_id :
  initial_options w !! "assistant_id" = None.
Proof.
  unfold initial_options.
  by repeat (rewrite lookup_insert_ne by done).
Qed.

Lemma initial_options_name :
  initial_options w !! "name" = Some (of_getenv (getenv w "AZURE_OPENAI_AGENT_NAME")).
Proof.
  unfold initial_options.
  repeat (rewrite lookup_insert_ne by done). by rewrite lookup_insert_eq.
Qed.

(** The loop over the listing computes the descriptors of the descriptor
    files and appends them to [options["tools"]]. *)
Lemma load_tools_spec (listing : list string) :
  forall (options : gmap string value) (l : list value) (st : State),
    options !! "tools" = Some (VList l) ->
    load_tools w listing options st =
    match descriptors w (descriptor_files listing) with
    | (evs, Return vs) =>
        (Return (<["tools" := VList (l ++ vs)]> options),
         mkState (heap st) (trace st ++ evs))
    | (evs, Raise e) => (Raise e, mkState (heap st) (trace st ++ evs))
    end.
Proof.
  induction listing as [|tool rest IH]; intros options l st Hl; simpl.
  - rewrite !app_nil_r, state_eta. unfold ret. by rewrite insert_id.
  - unfold descriptor_files. rewrite filter_cons.
    destruct (decide (endswith tool ".json" = true)) as [He|He].
    + rewrite He. simpl. unfold bind at 1. unfold call, bind at 1, emit. simpl.
      destruct (read_file w _) as [doc|]; simpl; [|done].
      unfold bind at 1.
      destruct (json_loads w doc) as [v|]; simpl; [|done].
      unfold bind at 1, tools_append. rewrite Hl. simpl.
      rewrite (IH _ (l ++ [v])%list) by apply lookup_insert_eq. simpl.
      fold (descriptor_files rest).
      destruct (descriptors w (descriptor_files rest)) as [evs [vs|e]]; simpl.
      * by rewrite insert_insert_eq, <- !app_assoc.
      * by rewrite <- app_assoc.
    + apply not_true_is_false in He. rewrite He. by apply IH.
Qed.

End Facts.

(** ** Normal form of a run *)

Section Run.

Variable w : World.

Lemma conversation_history_storage_spec (st : State) :
  conversation_history_storage w st =
  (Return (length (heap st)), mkState (heap st ++ [storage_object w]) (trace st)).
Proof.
  unfold conversation_history_storage, storage_object.
  destruct (truthy _); [|done].
  unfold bind, new, set_client, ret. simpl.
  rewrite list_lookup_middle by done.
  by rewrite insert_app_r_alt, Nat.sub_diag by done.
Qed.

Lemma last_cons_default {A} (x : A) (l : list A) (d : option A) :
  from_option Some d (last (x :: l)) = from_option Some (Some x) (last l).
Proof.
  revert x d. induction l as [|y l IH]; intros x d; [done|].
  change (last (x :: y :: l)) with (last (y :: l)).
  rewrite IH. symmetry. apply IH.
Qed.

(** The loop over the listed agents stops at the first one whose name is the
    configured name and updates it; without a match nothing is called. *)
Lemma for_agent_spec (agents_data : list Agent) :
  forall (options : gmap string value) (agent : option Agent) (st : State),
    for_agent w agents_data options agent st =
    match list_find (fun a => agent_name a = configured_name w) agents_data with
    | Some (_, a) =>
        let options' := <["assistant_id" := VStr (agent_id a)]> options in
        (match update_agent w options' with
         | Some a' => Return (options', Some a')
         | None => Raise (HttpResponseError "update_agent")
         end,
         mkState (heap st) (trace st ++ [EvUpdateAgent options']))
    | None => (Return (options, from_option Some agent (last agents_data)), st)
    end.
Proof.
  induction agents_data as [|a rest IH]; intros options agent st; [done|].
  cbn [for_agent list_find]. fold (configured_name w).
  destruct (decide (agent_name a = configured_name w)) as [Hn|Hn].
  - unfold bind, call, bind, emit. simpl.
    by destruct (update_agent w _).
  - rewrite IH.
    destruct (list_find _ rest) as [[i b]|]; simpl; [done|].
    by rewrite last_cons_default.
Qed.

Lemma run_spec : run w = run_cases w.
Proof.
  unfold run, run_cases, main.
  unfold bind at 1. rewrite conversation_history_storage_spec. simpl.
  unfold bind at 1, call, bind at 1, emit. simpl.
  destruct (list_agents w 100) as [page|]; simpl; [|done].
  unfold bind at 1, bind at 1. simpl.
  destruct (listdir w "tools") as [listing|]; simpl; [|done].
  unfold bind at 1.
  rewrite (load_tools_spec w listing _ _ _ (initial_options_tools w)).
  destruct (descriptors w (descriptor_files listing)) as [evs [vs|e]];
    simpl; [|done].
  rewrite manifest_nil_app.
  set (options := <["tools" := VList (manifest w vs)]> (initial_options w)).
  assert (Hid : options !! "assistant_id" = None).
  { unfold options. rewrite lookup_insert_ne by done.
    apply initial_options_assistant_id. }
  unfold bind at 1, provision, bind at 1.
  destruct (has_more page); simpl; [done|].
  unfold bind at 1. rewrite for_agent_spec.
  destruct (list_find _ (data page)) as [[i a]|]; simpl.
  - destruct (update_agent w _) as [a'|]; simpl; [|done].
    rewrite lookup_insert_eq. unfold ret, bind, emit. simpl.
    rewrite lookup_insert_eq. simpl. by rewrite <- ?app_assoc.
  - rewrite Hid. unfold bind at 1, call, bind at 1, emit. simpl.
    destruct (create_agent w options) as [a'|]; simpl; [|done].
    unfold ret, bind, emit. simpl.
    rewrite lookup_insert_eq. simpl. by rewrite <- ?app_assoc.
Qed.

End Run.

(** ** Case analysis of a run *)

Ltac run_cases w :=
  rewrite ?(run_spec w) in *; unfold run_cases in *;
  let page := fresh "page" in
  let listing := fresh "listing" in
  let evs := fresh "evs" in
  let vs := fresh "vs" in
  let e := fresh "e" in
  let a := fresh "a" in
  let a' := fresh "a'" in
  let i := fresh "i" in
  destruct (list_agents w 100) as [page|] eqn:Hlist;
  [ destruct (listdir w "tools") as [listing|] eqn:Hdir;
    [ destruct (descriptors w (descriptor_files listing)) as [evs [vs|e]] eqn:Hdesc;
      [ destruct (has_more page) eqn:Hmore;
        [ | destruct (list_find (fun a => agent_name a = configured_name w)
                                (data page)) as [[i a]|] eqn:Hfind;
            [ destruct (update_agent w _) as [a'|] eqn:Hupdate
            | destruct (create_agent w _) as [a'|] eqn:Hcreate ] ]
      | ]
    | ]
  | ];
  cbn [fst snd trace heap] in *; simplify_eq;
  repeat match goal with
         | H1 : ?x = ?u, H2 : ?x = ?v |- _ => rewrite H1 in H2; simplify_eq
         end.

Section Descriptors.

Variable w : World.

Lemma descriptors_opened (files : list string) :
  Forall (fun ev => exists f, f ∈ files /\ ev = EvOpen ("tools/" +:+ f))
         (fst (descriptors w files)).
Proof.
  induction files as [|f rest IH]; simpl; [constructor|].
  assert (Hf : exists f0, f0 ∈ f :: rest /\ EvOpen ("tools/" +:+ f) = EvOpen ("tools/" +:+ f0))
    by (exists f; split; [left | done]).
  destruct (read_file w _) as [doc|]; [|by repeat constructor].
  destruct (json_loads w doc) as [v|]; [|by repeat constructor].
  destruct (descriptors w rest) as [evs r]. simpl in *.
  constructor; [done|].
  eapply Forall_impl; [exact IH|].
  intros ev (f0 & Hin & ->). exists f0. split; [by right | done].
Qed.

Lemma descriptors_Return (files : list string) :
  forall evs vs,
    descriptors w files = (evs, Return vs) ->
    evs = map (fun f => EvOpen ("tools/" +:+ f)) files /\ Forall2 (parsed w) files vs.
Proof.
  induction files as [|f rest IH]; simpl; intros evs vs H.
  - injection H as <- <-. split; [done | constructor].
  - destruct (read_file w _) as [doc|] eqn:Hr; [|discriminate].
    destruct (json_loads w doc) as [v|] eqn:Hj; [|discriminate].
    destruct (descriptors w rest) as [evs' [vs'|e']]; [|discriminate].
    injection H as <- <-.
    destruct (IH evs' vs' eq_refl) as [-> HF].
    split; [done|]. constructor; [by exists doc | done].
Qed.


End Descriptors.

(** ** The cap on the listing and the choice among same-named agents *)

Section Provisioning.

Variable w : World.


Lemma provisioning_calls_opened (files : list string) (evs : list event) :
  Forall (fun ev => exists f, f ∈ files /\ ev = EvOpen ("tools/" +:+ f)) evs ->
  provisioning_calls evs = [].
Proof.
  induction 1 as [|ev evs (f & _ & ->) _ IH]; [done|].
  unfold provisioning_calls. by rewrite filter_cons_False.
Qed.

Lemma provisioning_calls_loaded (files : list string) (evs tl : list event)
      (r : outcome (list value)) :
  descriptors w files = (evs, r) ->
  provisioning_calls ((EvListAgents 100 :: EvListdir "tools" :: evs) ++ tl)
  = provisioning_calls tl.
Proof.
  intros Hd. unfold provisioning_calls. simpl.
  rewrite !filter_cons_False by done. rewrite filter_app.
  fold (provisioning_calls evs).
  rewrite (provisioning_calls_opened files); [done|].
  change evs with (fst (evs, r)). rewrite <- Hd. apply descriptors_opened.
Qed.

Lemma provisioning_calls_loading (files : list string) (evs : list event)
      (r : outcome (list value)) :
  descriptors w files = (evs, r) ->
  provisioning_calls (EvListAgents 100 :: EvListdir "tools" :: evs) = [].
Proof.
  intros Hd.
  rewrite <- (app_nil_r (_ :: _ :: evs)).
  by rewrite (provisioning_calls_loaded files evs [] r).
Qed.

Lemma list_find_first (P : Agent -> Prop) `{forall a, Decision (P a)}
      (pre post : list Agent) (a : Agent) :
  P a -> Forall (fun b => ~ P b) pre ->
  list_find P (pre ++ a :: post) = Some (length pre, a).
Proof.
  intros Ha. induction 1 as [|b pre Hb _ IH]; simpl.
  - by rewrite decide_True.
  - rewrite decide_False by done. by rewrite IH.
Qed.

End Provisioning.

(** C1, counterexample.  The listing has no more pages and two of its agents
    carry the configured name, yet the script does not fail: it returns, and
    the assistant id is that of the first of the two. *)
Lemma twins_do_not_fail :
  list_agents Examples.w_twins 100 = Some Examples.page_twins /\
  length (filter (fun a => agent_name a = configured_name Examples.w_twins)
                 (data Examples.page_twins)) = 2 /\
  exists g, fst (run Examples.w_twins) = Return g /\
            options g !! "assistant_id" = Some (VStr "asst_1").
Proof.
  split; [reflexivity|]. split; [reflexivity|].
  eexists. split; [vm_compute; reflexivity | reflexivity].
Qed.

(** C1, as amended.  When the listing reports more agents than the limit of
    100 ([has_more]) the script raises and no agent has been created or
    updated; once the tool descriptors have loaded, what it raises is
    "Too many agents".  When [has_more] is false and several listed agents
    carry the configured name, the provisioning step does not fail on that
    account: it updates the first of them in the order of the listing, makes
    no other call, and returns once that update has answered. *)
Theorem too_many_agents_raises (w : World) (page : OpenAIPageableListOfAgent) :
  list_agents w 100 = Some page ->
  (has_more page = true ->
   (exists e, fst (run w) = Raise e) /\
   provisioning_calls (trace (snd (run w))) = [] /\
   (forall listing evs vs,
       listdir w "tools" = Some listing ->
       descriptors w (descriptor_files listing) = (evs, Return vs) ->
       fst (run w) = Raise (Exception "Too many agents"))) /\
  (has_more page = false ->
   forall (options : gmap string value) (st : State)
          (named rest : list Agent) (a : Agent),
     data page = (named ++ a :: rest)%list ->
     Forall (fun b => agent_name b <> configured_name w) named ->
     agent_name a = configured_name w ->
     let kwargs := <["assistant_id" := VStr (agent_id a)]> options in
     snd (provision w page options st)
     = mkState (heap st) (trace st ++ [EvUpdateAgent kwargs]) /\
     forall a', update_agent w kwargs = Some a' ->
                fst (provision w page options st) = Return (kwargs, Some a')).
Proof.
  intros Hpage. split; intros Hm.
  - run_cases w; try congruence.
    + split; [by eexists|]. split; [|done].
      exact (provisioning_calls_loading w _ _ _ Hdesc).
    + split; [by eexists|].
      split; [exact (provisioning_calls_loading w _ _ _ Hdesc)|].
      intros; simplify_eq; congruence.
    + split; [by eexists|]. split; [done|]. intros; simplify_eq.
  - intros options st named rest a Hdata Hnamed Ha kwargs.
    assert (Hstep : provision w page options st =
                    (match update_agent w kwargs with
                     | Some a' => Return (kwargs, Some a')
                     | None => Raise (HttpResponseError "update_agent")
                     end,
                     mkState (heap st) (trace st ++ [EvUpdateAgent kwargs]))).
    { unfold provision. rewrite Hm, Hdata.
      unfold bind at 1. simpl. unfold bind at 1.
      rewrite for_agent_spec, (list_find_first _ named rest a Ha Hnamed). simpl.
      fold kwargs. destruct (update_agent w kwargs) as [a0|]; [|done].
      unfold kwargs. by rewrite lookup_insert_eq. }
    rewrite Hstep. split; [done|]. by intros a' ->.
Qed.

Lemma too_many_agents_raises_witness :
  list_agents Examples.w_more 100 = Some Examples.page_more /\
  has_more Examples.page_more = true /\
  fst (run Examples.w_more) = Raise (Exception "Too many agents") /\
  provisioning_calls (trace (snd (run Examples.w_more))) = [] /\
  has_more Examples.page_twins = false /\
  fst (provision Examples.w_twins Examples.page_twins ∅ (mkState [] []))
  = Return (<["assistant_id" := VStr "asst_1"]> ∅,
            Some (mkAgent "asst_1" (Some "travel"))).
Proof.
  pose proof (too_many_agents_raises Examples.w_more Examples.page_more eq_refl)
    as [Hcap _].
  destruct (Hcap eq_refl) as (_ & Hquiet & Hexn).
  split; [reflexivity|]. split; [reflexivity|].
  split; [exact (Hexn ["bing.json"] [EvOpen "tools/bing.json"] [VDict []]
                      eq_refl eq_refl)|].
  split; [exact Hquiet|]. split; [reflexivity|].
  pose proof (too_many_agents_raises Examples.w_twins Examples.page_twins eq_refl)
    as [_ Hfirst].
  destruct (Hfirst eq_refl ∅ (mkState [] [])
                   [mkAgent "asst_0" (Some "other")]
                   [mkAgent "asst_2" (Some "travel")]
                   (mkAgent "asst_1" (Some "travel")) eq_refl
                   ltac:(repeat constructor; discriminate) eq_refl)
    as [_ Hreturns].
  exact (Hreturns _ eq_refl).
Defined.

(** C9.  When the listing is within the cap and several of its agents carry
    the configured name, the provisioning step takes the first of them in the
    order of the listing: it makes exactly one call, the update of that agent,
    and stops; the agents listed after it, same-named or not, are the object
    of no call. *)
Theorem first_match_only_is_updated
        (w : World) (page : OpenAIPageableListOfAgent)
        (options : gmap string value) (st : State)
        (pre post : list Agent) (a : Agent) :
  has_more page = false ->
  data page = (pre ++ a :: post)%list ->
  agent_name a = configured_name w ->
  Forall (fun b => agent_name b <> configured_name w) pre ->
  let options' := <["assistant_id" := VStr (agent_id a)]> options in
  provision w page options st =
  (match update_agent w options' with
   | Some a' => Return (options', Some a')
   | None => Raise (HttpResponseError "update_agent")
   end,
   mkState (heap st) (trace st ++ [EvUpdateAgent options'])).
Proof.
  intros Hmore Hdata Ha Hpre options'.
  unfold provision. rewrite Hmore, Hdata.
  unfold bind at 1. simpl. unfold bind at 1.
  rewrite for_agent_spec, (list_find_first _ pre post a Ha Hpre). simpl.
  fold options'.
  destruct (update_agent w options') as [a'|]; [|done].
  unfold options'. by rewrite lookup_insert_eq.
Qed.

Lemma first_match_only_is_updated_witness :
  has_more Examples.page_twins = false /\
  agent_name (mkAgent "asst_2" (Some "travel")) = configured_name Examples.w_twins /\
  snd (provision Examples.w_twins Examples.page_twins ∅ (mkState [] []))
  = mkState [] [EvUpdateAgent (<["assistant_id" := VStr "asst_1"]> ∅)].
Proof.
  split; [reflexivity|]. split; [reflexivity|].
  rewrite (first_match_only_is_updated
             Examples.w_twins Examples.page_twins ∅ (mkState [] [])
             [mkAgent "asst_0" (Some "other")]
             [mkAgent "asst_2" (Some "travel")]
             (mkAgent "asst_1" (Some "travel"))
             eq_refl eq_refl eq_refl).
  - reflexivity.
  - repeat constructor. discriminate.
Defined.

(** C2, counterexample.  A listed agent carries the configured name, but the
    listing is cut off at the limit: no agent is updated, none is created, and
    the run raises, so that no agent identifier is resolved. *)
Lemma capped_listing_is_not_provisioned :
  list_agents Examples.w_more 100 = Some Examples.page_more /\
  (exists a, a ∈ data Examples.page_more /\
             agent_name a = configured_name Examples.w_more) /\
  provisioning_calls (trace (snd (run Examples.w_more))) = [] /\
  fst (run Examples.w_more) = Raise (Exception "Too many agents").
Proof.
  split; [reflexivity|]. split; [|split; reflexivity].
  exists (mkAgent "asst_1" (Some "travel")). split; [left | reflexivity].
Qed.

(** C2, as amended.  Provisioning is create-or-update for a listing within
    the cap, once the tool descriptors have loaded.  If some listed agent
    carries the configured name, the only provisioning call is an update
    addressed to the first such agent of the listing and no agent is created;
    otherwise the only provisioning call is one creation, whose arguments
    hold no "assistant_id".  In a run that returns, [options["assistant_id"]]
    is the id of the listed agent that was updated, respectively the id of
    the agent that the creation returned, and the bot is constructed with
    that id. *)
Theorem create_or_update
        (w : World) (page : OpenAIPageableListOfAgent)
        (listing : list string) (evs : list event) (vs : list value) :
  list_agents w 100 = Some page ->
  has_more page = false ->
  listdir w "tools" = Some listing ->
  descriptors w (descriptor_files listing) = (evs, Return vs) ->
  let loaded := <["tools" := VList (manifest w vs)]> (initial_options w) in
  ((exists a, a ∈ data page /\ agent_name a = configured_name w) ->
   exists i a0,
     data page !! i = Some a0 /\ agent_name a0 = configured_name w /\
     (forall j b, data page !! j = Some b -> (j < i)%nat ->
                  agent_name b <> configured_name w) /\
     let kwargs := <["assistant_id" := VStr (agent_id a0)]> loaded in
     provisioning_calls (trace (snd (run w))) = [EvUpdateAgent kwargs] /\
     forall g, fst (run w) = Return g ->
       options g !! "assistant_id" = Some (VStr (agent_id a0)) /\
       bot_assistant_id (bot g) = VStr (agent_id a0) /\
       last (trace (snd (run w))) = Some (EvAssistantBot (VStr (agent_id a0))))
  /\
  ((forall a, a ∈ data page -> agent_name a <> configured_name w) ->
   provisioning_calls (trace (snd (run w))) = [EvCreateAgent loaded] /\
   loaded !! "assistant_id" = None /\
   forall g, fst (run w) = Return g ->
     exists a', create_agent w loaded = Some a' /\
       options g !! "assistant_id" = Some (VStr (agent_id a')) /\
       bot_assistant_id (bot g) = VStr (agent_id a') /\
       last (trace (snd (run w))) = Some (EvAssistantBot (VStr (agent_id a')))).
Proof.
  intros Hpage Hcap Hls Hload loaded.
  assert (Hnone : loaded !! "assistant_id" = None).
  { unfold loaded. rewrite lookup_insert_ne by done.
    apply initial_options_assistant_id. }
  split.
  - intros (b & Hb & Hname).
    run_cases w; try congruence.
    + apply list_find_Some in Hfind as (Hi & Ha & Hfirst).
      exists i, a. split; [done|]. split; [done|]. split; [exact Hfirst|].
      cbv zeta. split.
      { rewrite (provisioning_calls_loaded w _ _ _ _ Hload).
        unfold provisioning_calls.
        rewrite filter_cons_True by done. by rewrite filter_cons_False. }
      intros g [= <-]. split; [apply lookup_insert_eq|]. split; [done|].
      by rewrite last_app.
    + apply list_find_Some in Hfind as (Hi & Ha & Hfirst).
      exists i, a. split; [done|]. split; [done|]. split; [exact Hfirst|].
      cbv zeta. split.
      { rewrite (provisioning_calls_loaded w _ _ _ _ Hload).
        unfold provisioning_calls. by rewrite filter_cons_True. }
      by intros g [=].
    + apply list_find_None in Hfind. rewrite Forall_forall in Hfind.
      by destruct (Hfind b Hb).
    + apply list_find_None in Hfind. rewrite Forall_forall in Hfind.
      by destruct (Hfind b Hb).
  - intros Hnomatch.
    run_cases w; try congruence.
    + apply list_find_Some in Hfind as (Hi & Ha & _).
      destruct (Hnomatch a); [by eapply list_elem_of_lookup_2 | done].
    + apply list_find_Some in Hfind as (Hi & Ha & _).
      destruct (Hnomatch a); [by eapply list_elem_of_lookup_2 | done].
    + split.
      { rewrite (provisioning_calls_loaded w _ _ _ _ Hload).
        unfold provisioning_calls.
        rewrite filter_cons_True by done. by rewrite filter_cons_False. }
      split; [done|].
      intros g [= <-]. exists a'. fold loaded in Hcreate.
      split; [done|]. split; [apply lookup_insert_eq|]. split; [done|].
      by rewrite last_app.
    + split.
      { rewrite (provisioning_calls_loaded w _ _ _ _ Hload).
        unfold provisioning_calls. by rewrite filter_cons_True. }
      split; [done|]. by intros g [=].
Qed.

Lemma create_or_update_witness :
  (list_agents Examples.w_bare 100 = Some Examples.page_others /\
   has_more Examples.page_others = false /\
   listdir Examples.w_bare "tools" = Some [] /\
   descriptors Examples.w_bare (descriptor_files []) = ([], Return [])) /\
  (exists g, fst (run Examples.w_bare) = Return g /\
             options g !! "assistant_id" = Some (VStr "asst_new") /\
             bot_assistant_id (bot g) = VStr "asst_new") /\
  (exists i a0 g, data Examples.page_twins !! i = Some a0 /\
                  fst (run Examples.w_twins) = Return g /\
                  options g !! "assistant_id" = Some (VStr (agent_id a0)) /\
                  bot_assistant_id (bot g) = VStr (agent_id a0)).
Proof.
  split; [by repeat split|]. split.
  - destruct (create_or_update Examples.w_bare Examples.page_others [] [] []
                               eq_refl eq_refl eq_refl eq_refl) as [_ Hcreate].
    destruct Hcreate as (_ & _ & Hbot).
    { intros a Ha. apply list_elem_of_singleton in Ha as ->. discriminate. }
    assert (Hg : exists g, fst (run Examples.w_bare) = Return g)
      by (eexists; vm_compute; reflexivity).
    destruct Hg as [g Hg].
    destruct (Hbot g Hg) as (a' & Ha' & Hid & Hb & _).
    injection Ha' as <-. by exists g.
  - destruct (create_or_update Examples.w_twins Examples.page_twins
                               ["bing.json"; "README.md"]
                               [EvOpen "tools/bing.json"] [VDict []]
                               eq_refl eq_refl eq_refl eq_refl) as [Hupdate _].
    destruct Hupdate as (i & a0 & Hi & _ & _ & _ & Hbot).
    { exists (mkAgent "asst_1" (Some "travel")).
      split; [|reflexivity]. right. left. }
    assert (Hg : exists g, fst (run Examples.w_twins) = Return g)
      by (eexists; vm_compute; reflexivity).
    destruct Hg as [g Hg].
    destruct (Hbot g Hg) as (Hid & Hb & _).
    by exists i, a0, g.
Defined.

(** ** The storage behind the two state objects *)




(** ** The tool manifest *)

Section ManifestFacts.

Variable w : World.

Lemma loading_not_provisioning (files : list string) (evs : list event)
      (r : outcome (list value)) (ev : event) :
  descriptors w files = (evs, r) ->
  ev ∈ EvListAgents 100 :: EvListdir "tools" :: evs ->
  kwargs_of ev = None /\ is_bot ev = false.
Proof.
  intros Hd Hin.
  apply elem_of_cons in Hin as [->|Hin]; [by split|].
  apply elem_of_cons in Hin as [->|Hin]; [by split|].
  pose proof (descriptors_opened w files) as Hop.
  rewrite Hd in Hop. rewrite Forall_forall in Hop.
  destruct (Hop ev Hin) as (f & _ & ->). by split.
Qed.

(** Whatever reaches the agents service carries the manifest: the built-in
    definitions followed by the descriptors, all loaded before the call. *)
Lemma provisioning_kwargs (ev : event) (kwargs : gmap string value) :
  ev ∈ trace (snd (run w)) ->
  kwargs_of ev = Some kwargs ->
  exists listing evs vs tl,
    listdir w "tools" = Some listing /\
    descriptors w (descriptor_files listing) = (evs, Return vs) /\
    kwargs !! "tools" = Some (VList (manifest w vs)) /\
    trace (snd (run w)) = ((EvListAgents 100 :: EvListdir "tools" :: evs) ++ tl)%list /\
    ev ∈ tl /\
    Forall (fun ev' => is_filesystem ev' = false) tl.
Proof.
  intros Hin Hk.
  assert (Htools : forall vs o,
             (<["tools" := VList (manifest w vs)]> (initial_options w)) !! "tools"
             = Some (VList (manifest w vs)) /\
             (<["assistant_id" := o]>
                (<["tools" := VList (manifest w vs)]> (initial_options w))) !! "tools"
             = Some (VList (manifest w vs))).
  { intros vs o. split; [apply lookup_insert_eq|].
    rewrite lookup_insert_ne by done. apply lookup_insert_eq. }
  run_cases w;
    try (apply elem_of_app in Hin as [Hin|Hin]);
    try (destruct (loading_not_provisioning _ _ _ _ Hdesc Hin); congruence);
    try (exists listing, evs, vs; eexists;
         split; [done|]; split; [done|];
         split; [|split; [done|split; [done|by repeat constructor]]];
         repeat (apply elem_of_cons in Hin as [->|Hin]);
         try (by apply elem_of_nil in Hin); try discriminate;
         simpl in Hk; injection Hk as <-;
         apply (Htools vs VNone)).
  - repeat (apply elem_of_cons in Hin as [->|Hin]); try discriminate.
    by apply elem_of_nil in Hin.
  - repeat (apply elem_of_cons in Hin as [->|Hin]); try discriminate.
    by apply elem_of_nil in Hin.
Qed.

Lemma filesystem_calls_opened (files : list string) :
  filesystem_calls (map (fun f => EvOpen ("tools/" +:+ f)) files)
  = map (fun f => EvOpen ("tools/" +:+ f)) files.
Proof.
  induction files as [|f rest IH]; [done|]. simpl.
  unfold filesystem_calls in *. rewrite filter_cons_True by done.
  by rewrite IH.
Qed.

Lemma filesystem_calls_none (tl : list event) :
  Forall (fun ev => is_filesystem ev = false) tl -> filesystem_calls tl = [].
Proof.
  induction 1 as [|ev tl Hev _ IH]; [done|].
  unfold filesystem_calls in *. rewrite filter_cons_False by congruence. done.
Qed.

End ManifestFacts.

(** C4.  Whatever call creates or updates the agent carries, under "tools",
    the built-in definitions (code interpreter, then file search) followed by
    one entry per file of the [tools] directory whose name ends in ".json",
    in the order of the listing, each the parsed content of its file; the
    other files are never opened.  The directory is listed once and each
    descriptor is opened once, all of it before the call; from the call on
    the script lists no directory and opens no file ([os.listdir] and [open]
    are the filesystem calls of [app.py]). *)
Theorem manifest_assembled_once
        (w : World) (ev : event) (kwargs : gmap string value) :
  ev ∈ trace (snd (run w)) ->
  kwargs_of ev = Some kwargs ->
  exists listing vs,
    listdir w "tools" = Some listing /\
    (forall f, f ∈ descriptor_files listing <->
               f ∈ listing /\ endswith f ".json" = true) /\
    Forall2 (parsed w) (descriptor_files listing) vs /\
    kwargs !! "tools" =
      Some (VList (CodeInterpreterTool_definitions w
                   ++ FileSearchTool_definitions w ++ vs)) /\
    filesystem_calls (trace (snd (run w))) =
      EvListdir "tools"
      :: map (fun f => EvOpen ("tools/" +:+ f)) (descriptor_files listing) /\
    exists before after,
      trace (snd (run w)) = (before ++ after)%list /\
      ev ∈ after /\
      Forall (fun ev' => is_filesystem ev' = false) after.
Proof.
  intros Hin Hk.
  destruct (provisioning_kwargs w ev kwargs Hin Hk)
    as (listing & evs & vs & tl & Hls & Hd & Ht & Htr & Htl & Hquiet).
  destruct (descriptors_Return w _ _ _ Hd) as [-> Hparsed].
  exists listing, vs.
  split; [done|]. split.
  { intros f. unfold descriptor_files. rewrite list_elem_of_filter. tauto. }
  split; [done|]. split; [done|]. split.
  - rewrite Htr. unfold filesystem_calls. simpl.
    rewrite filter_cons_False by done. rewrite filter_cons_True by done.
    rewrite filter_app.
    fold (filesystem_calls tl).
    fold (filesystem_calls (map (fun f => EvOpen ("tools/" +:+ f))
                                (descriptor_files listing))).
    by rewrite filesystem_calls_opened, filesystem_calls_none, app_nil_r.
  - by eexists _, tl.
Qed.

Lemma manifest_assembled_once_witness :
  exists ev kwargs,
    ev ∈ trace (snd (run Examples.w_twins)) /\
    kwargs_of ev = Some kwargs /\
    kwargs !! "tools" =
      Some (VList [Examples.code_interpreter; Examples.file_search; VDict []]) /\
    filesystem_calls (trace (snd (run Examples.w_twins))) =
      [EvListdir "tools"; EvOpen "tools/bing.json"].
Proof.
  set (loaded := <["tools" := VList (manifest Examples.w_twins [VDict []])]>
                   (initial_options Examples.w_twins)).
  set (kwargs := <["assistant_id" := VStr "asst_1"]> loaded).
  assert (Hin : EvUpdateAgent kwargs ∈ trace (snd (run Examples.w_twins))).
  { rewrite run_spec. do 3 right. left. }
  destruct (manifest_assembled_once Examples.w_twins (EvUpdateAgent kwargs)
                                    kwargs Hin eq_refl)
    as (listing & vs & Hls & _ & _ & _ & Hfs & _).
  exists (EvUpdateAgent kwargs), kwargs.
  split; [exact Hin|]. split; [reflexivity|]. split; [reflexivity|].
  injection Hls as <-. exact Hfs.
Defined.

(** C5, counterexample.  With an empty [tools] directory the agent is created
    with a manifest of two entries, the two built-in definitions; however its
    entries are classified, it does not offer all four classes. *)
Lemma bare_manifest_lacks_classes :
  exists kwargs,
    EvCreateAgent kwargs ∈ trace (snd (run Examples.w_bare)) /\
    kwargs !! "tools" =
      Some (VList [Examples.code_interpreter; Examples.file_search]) /\
    forall class_of : value -> tool_class,
      ~ (forall c, offers class_of
                          [Examples.code_interpreter; Examples.file_search] c).
Proof.
  eexists. split; [rewrite run_spec; do 2 right; left|].
  split; [reflexivity|].
  intros class_of Hall.
  destruct (Hall code_execution) as (t1 & H1 & E1).
  destruct (Hall file_searching) as (t2 & H2 & E2).
  destruct (Hall web_search) as (t3 & H3 & E3).
  destruct (Hall directory_lookup) as (t4 & H4 & E4).
  repeat match goal with
         | H : _ ∈ _ :: _ |- _ => apply elem_of_cons in H as [->|H]
         | H : _ ∈ [] |- _ => by apply elem_of_nil in H
         end; congruence.
Qed.

(** C5, as amended.  The manifest handed to the creation or update of the
    agent always contains the built-in code-interpreter and file-search
    definitions; every other entry of it is the parsed content of a ".json"
    file of the [tools] directory, so that a web-search or directory-lookup
    tool is offered only if such a file describes it.  The Bing and Graph
    clients are handed to the bot, not to the manifest. *)
Theorem manifest_contents (w : World) (ev : event) (kwargs : gmap string value) :
  ev ∈ trace (snd (run w)) ->
  kwargs_of ev = Some kwargs ->
  (exists tools,
     kwargs !! "tools" = Some (VList tools) /\
     (forall t, t ∈ CodeInterpreterTool_definitions w \/
                t ∈ FileSearchTool_definitions w -> t ∈ tools) /\
     (forall t, t ∈ tools ->
                t ∈ CodeInterpreterTool_definitions w \/
                t ∈ FileSearchTool_definitions w \/
                exists listing f,
                  listdir w "tools" = Some listing /\ f ∈ listing /\
                  endswith f ".json" = true /\ parsed w f t)) /\
  (forall g, fst (run w) = Return g ->
             bot_bing_client (bot g) = bing_client w /\
             bot_graph_client (bot g) = graph_client).
Proof.
  intros Hin Hk. split.
  - destruct (provisioning_kwargs w ev kwargs Hin Hk)
      as (listing & evs & vs & tl & Hls & Hd & Ht & _).
    destruct (descriptors_Return w _ _ _ Hd) as [_ Hparsed].
    exists (manifest w vs). split; [done|]. unfold manifest. split.
    + intros t Ht'. rewrite !elem_of_app. tauto.
    + intros t Ht'. rewrite !elem_of_app in Ht'.
      destruct Ht' as [?|[?|Hv]]; [by left | by right; left | right; right].
      apply list_elem_of_lookup in Hv as [i Hi].
      destruct (Forall2_lookup_r _ _ _ _ _ Hparsed Hi) as (f & Hf & Hp).
      apply list_elem_of_lookup_2 in Hf.
      unfold descriptor_files in Hf. apply list_elem_of_filter in Hf as [He Hl].
      by exists listing, f.
  - intros g Hg. run_cases w; by simplify_eq.
Qed.

Lemma manifest_contents_witness :
  exists kwargs tools,
    EvCreateAgent kwargs ∈ trace (snd (run Examples.w_bare)) /\
    kwargs !! "tools" = Some (VList tools) /\
    Examples.code_interpreter ∈ tools /\ Examples.file_search ∈ tools.
Proof.
  set (kwargs := <["tools" := VList (manifest Examples.w_bare [])]>
                   (initial_options Examples.w_bare)).
  assert (Hin : EvCreateAgent kwargs ∈ trace (snd (run Examples.w_bare))).
  { rewrite run_spec. do 2 right. left. }
  destruct (manifest_contents Examples.w_bare (EvCreateAgent kwargs) kwargs
                              Hin eq_refl)
    as [(tools & Ht & Hbuiltin & _) _].
  exists kwargs, tools.
  split; [exact Hin|]. split; [exact Ht|].
  split; apply Hbuiltin; [left | right]; left.
Defined.




(** * Further properties of the start-up script *)

Section LoadingFacts.

Variable w : World.


Lemma descriptors_loadable (files : list string) :
  Forall (loadable w) files <->
  exists vs, descriptors w files
             = (map (fun f => EvOpen ("tools/" +:+ f)) files, Return vs).
Proof.
  induction files as [|f rest IH]; simpl.
  - split; [by exists [] | constructor].
  - split.
    + intros Hall. inversion Hall as [|? ? (doc & v & Hr & Hj) Hrest]; subst.
      apply IH in Hrest as [vs Hvs]. rewrite Hr, Hj, Hvs. by exists (v :: vs).
    + intros [vs Hvs].
      destruct (read_file w _) as [doc|] eqn:Hr; [|done].
      destruct (json_loads w doc) as [v|] eqn:Hj; [|done].
      destruct (descriptors w rest) as [evs0 [vs0|e0]] eqn:Hrest; [|done].
      injection Hvs as Hevs _. constructor; [by exists doc, v|].
      apply IH. exists vs0. by rewrite Hevs.
Qed.

End LoadingFacts.

(** X1.  A run returns only if the listing of the agents has answered and is
    within the cap, the [tools] directory could be listed, every one of its
    ".json" files could be read and parsed, and the agents service has
    answered the one call made to it: the update of the first listed agent
    that carries the configured name or, without such an agent, the
    creation. *)
Theorem run_returns_only_if (w : World) (g : Globals) :
  fst (run w) = Return g ->
  exists page listing vs,
    list_agents w 100 = Some page /\
    has_more page = false /\
    listdir w "tools" = Some listing /\
    Forall2 (parsed w) (descriptor_files listing) vs /\
    match list_find (fun a => agent_name a = configured_name w) (data page) with
    | Some (_, a) =>
        is_Some (update_agent w (<["assistant_id" := VStr (agent_id a)]>
                                   (loaded_options w vs)))
    | None => is_Some (create_agent w (loaded_options w vs))
    end.
Proof.
  unfold loaded_options. intros Hg.
  run_cases w; try done;
    destruct (descriptors_Return w _ _ _ Hdesc) as [_ Hparsed];
    exists page, listing, vs; rewrite Hfind; by repeat split.
Qed.

Lemma run_returns_only_if_witness :
  exists g page,
    fst (run Examples.w_twins) = Return g /\
    list_agents Examples.w_twins 100 = Some page /\
    has_more page = false.
Proof.
  assert (Hg : exists g, fst (run Examples.w_twins) = Return g)
    by (eexists; vm_compute; reflexivity).
  destruct Hg as [g Hg].
  destruct (run_returns_only_if Examples.w_twins g Hg)
    as (page & listing & vs & Hpage & Hcap & _).
  by exists g, page.
Defined.

(** X3.  The keyword arguments of every call that creates or updates the
    agent carry the name, the model and the instructions read from the
    environment (None for an unset variable) and the preview header; the
    loading of the descriptors has changed none of them.  A creation carries
    these and "tools" and nothing else; an update carries in addition the
    "assistant_id" of a listed agent. *)
Theorem provisioning_settings (w : World) (ev : event) (kwargs : gmap string value) :
  ev ∈ trace (snd (run w)) ->
  kwargs_of ev = Some kwargs ->
  kwargs !! "name" = Some (of_getenv (getenv w "AZURE_OPENAI_AGENT_NAME")) /\
  kwargs !! "model" = Some (of_getenv (getenv w "AZURE_OPENAI_DEPLOYMENT_NAME")) /\
  kwargs !! "instructions" = Some (of_getenv (getenv w "LLM_INSTRUCTIONS")) /\
  kwargs !! "headers" = Some (VDict [("x-ms-enable-preview", VStr "true")]) /\
  match ev with
  | EvCreateAgent _ =>
      dom kwargs = ({["name"; "model"; "instructions"; "tools"; "headers"]}
                    : gset string)
  | EvUpdateAgent _ =>
      dom kwargs = ({["name"; "model"; "instructions"; "tools"; "headers";
                      "assistant_id"]} : gset string) /\
      exists page a, list_agents w 100 = Some page /\ a ∈ data page /\
                     kwargs !! "assistant_id" = Some (VStr (agent_id a))
  | _ => True
  end.
Proof.
  intros Hin Hk.
  assert (Hdom : forall vs,
             dom (<["tools" := VList (manifest w vs)]> (initial_options w))
             = ({["name"; "model"; "instructions"; "tools"; "headers"]}
                : gset string)).
  { intros vs. unfold initial_options. rewrite !dom_insert_L, dom_empty_L.
    set_solver. }
  run_cases w;
    try (apply elem_of_app in Hin as [Hin|Hin]);
    try (destruct (loading_not_provisioning _ _ _ _ _ Hdesc Hin); congruence);
    repeat (apply elem_of_cons in Hin as [->|Hin]);
    try (by apply elem_of_nil in Hin); try discriminate;
    simpl in Hk; injection Hk as <-;
    (split; [done|]); (split; [done|]); (split; [done|]); (split; [done|]);
    rewrite ?dom_insert_L, ?Hdom; try done.
  - split; [set_solver|]. apply list_find_Some in Hfind as (Hi & _ & _).
    exists page, a. split; [done|]. split; [by eapply list_elem_of_lookup_2|].
    apply lookup_insert_eq.
  - split; [set_solver|]. apply list_find_Some in Hfind as (Hi & _ & _).
    exists page, a. split; [done|]. split; [by eapply list_elem_of_lookup_2|].
    apply lookup_insert_eq.
Qed.

Lemma provisioning_settings_witness :
  exists kwargs,
    EvUpdateAgent kwargs ∈ trace (snd (run Examples.w_twins)) /\
    kwargs !! "name" = Some (VStr "travel") /\
    kwargs !! "model" = Some VNone /\
    exists a, a ∈ data Examples.page_twins /\
              kwargs !! "assistant_id" = Some (VStr (agent_id a)).
Proof.
  set (kwargs := <["assistant_id" := VStr "asst_1"]>
                   (loaded_options Examples.w_twins [VDict []])).
  assert (Hin : EvUpdateAgent kwargs ∈ trace (snd (run Examples.w_twins))).
  { rewrite run_spec. do 3 right. left. }
  destruct (provisioning_settings Examples.w_twins (EvUpdateAgent kwargs)
                                  kwargs Hin eq_refl)
    as (Hname & Hmodel & _ & _ & _ & page & a & Hpage & Ha & Hid).
  exists kwargs. split; [exact Hin|]. split; [exact Hname|].
  split; [exact Hmodel|]. injection Hpage as <-. by exists a.
Defined.

(** The provisioning step on a listing within the cap, by the first listed
    agent that carries the configured name. *)
Lemma provision_within_cap (w : World) (page : OpenAIPageableListOfAgent)
      (options : gmap string value) (st : State) :
  has_more page = false ->
  provision w page options st =
  match list_find (fun a => agent_name a = configured_name w) (data page) with
  | Some (_, a) =>
      let options' := <["assistant_id" := VStr (agent_id a)]> options in
      (match update_agent w options' with
       | Some a' => Return (options', Some a')
       | None => Raise (HttpResponseError "update_agent")
       end,
       mkState (heap st) (trace st ++ [EvUpdateAgent options']))
  | None =>
      match options !! "assistant_id" with
      | None =>
          (match create_agent w options with
           | Some a' =>
               Return (<["assistant_id" := VStr (agent_id a')]> options, Some a')
           | None => Raise (HttpResponseError "create_agent")
           end,
           mkState (heap st) (trace st ++ [EvCreateAgent options]))
      | Some _ => (Return (options, last (data page)), st)
      end
  end.
Proof.
  intros Hcap. unfold provision. rewrite Hcap.
  unfold bind at 1. simpl. unfold bind at 1. rewrite for_agent_spec.
  destruct (list_find _ (data page)) as [[i a]|]; simpl.
  - destruct (update_agent w _); [|done]. by rewrite lookup_insert_eq.
  - destruct (options !! "assistant_id"); [by destruct (last (data page))|].
    unfold bind, call, bind, emit. simpl. by destruct (create_agent w options).
Qed.

(** X4.  The agent name may be unset.  [os.getenv] then gives None, which is
    the name of no named agent: if every listed agent has a name, none is
    updated and an agent is created whose "name" argument is None; a listed
    agent without a name is what the comparison matches, and the first such
    agent is updated. *)
Theorem unset_name_matches_nameless
        (w : World) (page : OpenAIPageableListOfAgent)
        (options : gmap string value) (st : State) :
  getenv w "AZURE_OPENAI_AGENT_NAME" = None ->
  has_more page = false ->
  options !! "assistant_id" = None ->
  initial_options w !! "name" = Some VNone /\
  (Forall (fun a => agent_name a <> None) (data page) ->
   provision w page options st =
   (match create_agent w options with
    | Some a' => Return (<["assistant_id" := VStr (agent_id a')]> options, Some a')
    | None => Raise (HttpResponseError "create_agent")
    end,
    mkState (heap st) (trace st ++ [EvCreateAgent options]))) /\
  (forall named a rest,
      data page = (named ++ a :: rest)%list ->
      Forall (fun b => agent_name b <> None) named ->
      agent_name a = None ->
      snd (provision w page options st) =
      mkState (heap st)
              (trace st ++ [EvUpdateAgent
                              (<["assistant_id" := VStr (agent_id a)]> options)])).
Proof.
  intros Hname Hcap Hid.
  split; [by rewrite initial_options_name, Hname|].
  rewrite (provision_within_cap w page options st Hcap).
  unfold configured_name. rewrite Hname. split.
  - intros Hnamed.
    by rewrite (proj2 (list_find_None _ _) Hnamed), Hid.
  - intros named a rest Hdata Hnamed Ha.
    by rewrite Hdata, (list_find_first _ named rest a Ha Hnamed).
Qed.

Lemma unset_name_matches_nameless_witness :
  getenv Examples.w_nameless "AZURE_OPENAI_AGENT_NAME" = None /\
  Forall (fun a => agent_name a <> None) (data Examples.page_twins) /\
  snd (provision Examples.w_nameless Examples.page_twins ∅ (mkState [] []))
  = mkState [] [EvCreateAgent ∅].
Proof.
  assert (Hnamed : Forall (fun a => agent_name a <> None)
                          (data Examples.page_twins))
    by (repeat constructor; discriminate).
  split; [reflexivity|]. split; [exact Hnamed|].
  destruct (unset_name_matches_nameless
              Examples.w_nameless Examples.page_twins ∅ (mkState [] [])
              eq_refl eq_refl (lookup_empty _)) as (_ & Hcreate & _).
  by rewrite (Hcreate Hnamed).
Defined.



(** X6.  The cap is checked only after the descriptors have been read.  With
    a listing cut off at the limit the script still lists the [tools]
    directory and opens its ".json" files, and the failure of one of them
    comes before "Too many agents". *)
Theorem cap_checked_after_loading
        (w : World) (page : OpenAIPageableListOfAgent) (listing : list string) :
  list_agents w 100 = Some page ->
  has_more page = true ->
  listdir w "tools" = Some listing ->
  trace (snd (run w)) =
    EvListAgents 100 :: EvListdir "tools"
      :: fst (descriptors w (descriptor_files listing)) /\
  fst (run w) =
    match snd (descriptors w (descriptor_files listing)) with
    | Raise e => Raise e
    | Return _ => Raise (Exception "Too many agents")
    end.
Proof.
  intros Hpage Hcap Hls. rewrite run_spec. unfold run_cases.
  rewrite Hpage, Hls, Hcap.
  by destruct (descriptors w (descriptor_files listing)) as [evs [vs|e]].
Qed.

Lemma cap_checked_after_loading_witness :
  has_more Examples.page_more = true /\
  trace (snd (run Examples.w_more_broken)) =
    [EvListAgents 100; EvListdir "tools"; EvOpen "tools/bing.json";
     EvOpen "tools/graph.json"] /\
  fst (run Examples.w_more_broken) = Raise (JSONDecodeError "{").
Proof.
  split; [reflexivity|].
  exact (cap_checked_after_loading
           Examples.w_more_broken Examples.page_more ["bing.json"; "graph.json"]
           eq_refl eq_refl eq_refl).
Defined.

(** X7.  An update that fails is final.  When the first listed agent that
    carries the configured name cannot be updated, the script raises; it does
    not go on to the next agent of that name, creates no agent and constructs
    no bot: the update is its last call. *)
Theorem update_failure_is_final
        (w : World) (page : OpenAIPageableListOfAgent) (listing : list string)
        (vs : list value) (named rest : list Agent) (a : Agent) :
  list_agents w 100 = Some page ->
  has_more page = false ->
  listdir w "tools" = Some listing ->
  Forall2 (parsed w) (descriptor_files listing) vs ->
  data page = (named ++ a :: rest)%list ->
  Forall (fun b => agent_name b <> configured_name w) named ->
  agent_name a = configured_name w ->
  let kwargs := <["assistant_id" := VStr (agent_id a)]> (loaded_options w vs) in
  update_agent w kwargs = None ->
  fst (run w) = Raise (HttpResponseError "update_agent") /\
  provisioning_calls (trace (snd (run w))) = [EvUpdateAgent kwargs] /\
  last (trace (snd (run w))) = Some (EvUpdateAgent kwargs) /\
  Forall (fun ev => is_bot ev = false) (trace (snd (run w))).
Proof.
  intros Hpage Hcap Hls Hparsed Hdata Hnamed Ha kwargs Hfail.
  assert (Hload : descriptors w (descriptor_files listing)
                  = (map (fun f => EvOpen ("tools/" +:+ f))
                         (descriptor_files listing), Return vs)).
  { clear -Hparsed. induction Hparsed as [|f v fs vs (doc & Hr & Hj) _ IH];
      simpl; [done|]. by rewrite Hr, Hj, IH. }
  rewrite run_spec. unfold run_cases.
  rewrite Hpage, Hls, Hload, Hcap, Hdata,
    (list_find_first _ named rest a Ha Hnamed).
  fold (loaded_options w vs). fold kwargs. rewrite Hfail.
  cbn [fst snd trace].
  split; [done|]. split; [exact (provisioning_calls_loaded w _ _ _ _ Hload)|].
  split; [by rewrite last_app|].
  apply Forall_app. split; [|by repeat constructor].
  do 2 (constructor; [done|]). clear. induction (descriptor_files listing);
    by constructor.
Qed.

Lemma update_failure_is_final_witness :
  update_agent Examples.w_update_fails
               (<["assistant_id" := VStr "asst_1"]>
                  (loaded_options Examples.w_update_fails [])) = None /\
  fst (run Examples.w_update_fails) = Raise (HttpResponseError "update_agent") /\
  provisioning_calls (trace (snd (run Examples.w_update_fails)))
  = [EvUpdateAgent (<["assistant_id" := VStr "asst_1"]>
                      (loaded_options Examples.w_update_fails []))].
Proof.
  split; [reflexivity|].
  destruct (update_failure_is_final
              Examples.w_update_fails Examples.page_twins [] []
              [mkAgent "asst_0" (Some "other")]
              [mkAgent "asst_2" (Some "travel")]
              (mkAgent "asst_1" (Some "travel"))
              eq_refl eq_refl eq_refl ltac:(constructor) eq_refl
              ltac:(repeat constructor; discriminate) eq_refl eq_refl)
    as (Hraise & Hcalls & _).
  by split.
Defined.

(** X8.  Whatever call a run makes to the agents service or to the [tools]
    directory comes after the listing of the agents: a trace that holds a
    call starts with that listing, made with a limit of 100, and holds no
    second listing.  When the listing fails, the [tools] directory is not
    listed, no descriptor is opened and no agent is created or updated. *)
Theorem agents_listed_first_and_once (w : World) (ev : event) :
  ev ∈ trace (snd (run w)) ->
  (exists rest,
      trace (snd (run w)) = EvListAgents 100 :: rest /\
      Forall (fun ev' => is_listing ev' = false) rest) /\
  (list_agents w 100 = None ->
   filesystem_calls (trace (snd (run w))) = [] /\
   provisioning_calls (trace (snd (run w))) = []).
Proof.
  intros _.
  assert (Hopened : forall files,
             Forall (fun ev => is_listing ev = false) (fst (descriptors w files))).
  { intros files. eapply Forall_impl; [apply descriptors_opened|].
    by intros ev' (f & _ & ->). }
  split.
  - exists (tail (trace (snd (run w)))).
    run_cases w;
      try (pose proof (Hopened (descriptor_files listing)) as Hevs;
           rewrite Hdesc in Hevs; simpl in Hevs);
      simpl; (split; [reflexivity|]);
      repeat first [apply Forall_cons; split; [reflexivity|]
                   | apply Forall_app; split; [exact Hevs|]
                   | exact Hevs
                   | apply Forall_nil_2].
  - intros Hfail. rewrite run_spec. unfold run_cases. by rewrite Hfail.
Qed.

Lemma agents_listed_first_and_once_witness :
  EvListdir "tools" ∈ trace (snd (run Examples.w_no_tools)) /\
  exists rest,
    trace (snd (run Examples.w_no_tools)) = EvListAgents 100 :: rest /\
    Forall (fun ev' => is_listing ev' = false) rest.
Proof.
  assert (Hin : EvListdir "tools" ∈ trace (snd (run Examples.w_no_tools)))
    by (rewrite run_spec; right; left).
  split; [exact Hin|].
  exact (proj1 (agents_listed_first_and_once Examples.w_no_tools _ Hin)).
Defined.



(** X13.  A run that returns has made exactly one call that creates or
    updates an agent.  The module variable [agent] ends as the agent the
    service returned for that call, not as an agent of the listing, and the
    [options] dict ends as the keyword arguments of that call with
    "assistant_id" bound to the id handed to the bot. *)
Theorem globals_after_provisioning (w : World) (g : Globals) :
  fst (run w) = Return g ->
  exists ev kwargs returned,
    provisioning_calls (trace (snd (run w))) = [ev] /\
    kwargs_of ev = Some kwargs /\
    match ev with
    | EvUpdateAgent _ => update_agent w kwargs = Some returned
    | _ => create_agent w kwargs = Some returned
    end /\
    agent g = Some returned /\
    options g = <["assistant_id" := bot_assistant_id (bot g)]> kwargs /\
    list_agents w 100 = Some (agents g).
Proof.
  intros Hg. run_cases w.
  - eexists (EvUpdateAgent _), _, a'.
    split; [rewrite (provisioning_calls_loaded w _ _ _ _ Hdesc);
            unfold provisioning_calls;
            rewrite filter_cons_True by done; by rewrite filter_cons_False|].
    simpl. split; [reflexivity|]. split; [exact Hupdate|]. split; [done|].
    split; [by rewrite insert_insert_eq | done].
  - eexists (EvCreateAgent _), _, a'.
    split; [rewrite (provisioning_calls_loaded w _ _ _ _ Hdesc);
            unfold provisioning_calls;
            rewrite filter_cons_True by done; by rewrite filter_cons_False|].
    simpl. split; [reflexivity|]. split; [exact Hcreate|]. by repeat split.
Qed.

Lemma globals_after_provisioning_witness :
  exists g returned,
    fst (run Examples.w_twins) = Return g /\
    agent g = Some returned /\
    length (provisioning_calls (trace (snd (run Examples.w_twins)))) = 1.
Proof.
  assert (Hg : exists g, fst (run Examples.w_twins) = Return g)
    by (eexists; vm_compute; reflexivity).
  destruct Hg as [g Hg].
  destruct (globals_after_provisioning Examples.w_twins g Hg)
    as (ev & kwargs & returned & Hcalls & _ & _ & Hagent & _).
  exists g, returned. split; [exact Hg|]. split; [exact Hagent|].
  by rewrite Hcalls.
Defined.

(** X14.  The loop over the [tools] directory, from any [options] dict whose
    "tools" entry is a list: it returns exactly when every ".json" file of
    the listing can be read and parses; it then has opened these files and no
    other, in the order of the listing, has appended one entry per file to
    the "tools" list, and has changed no other key of the dict. *)
Theorem load_tools_returns_iff
        (w : World) (listing : list string) (options : gmap string value)
        (l : list value) (st : State) :
  options !! "tools" = Some (VList l) ->
  ((exists options', fst (load_tools w listing options st) = Return options') <->
   Forall (loadable w) (descriptor_files listing)) /\
  (forall options',
      fst (load_tools w listing options st) = Return options' ->
      snd (load_tools w listing options st) =
        mkState (heap st)
                (trace st ++ map (fun f => EvOpen ("tools/" +:+ f))
                                 (descriptor_files listing)) /\
      (exists vs, options' !! "tools" = Some (VList (l ++ vs)) /\
                  Forall2 (parsed w) (descriptor_files listing) vs) /\
      (forall key, key <> "tools" -> options' !! key = options !! key)).
Proof.
  intros Htools. rewrite (load_tools_spec w listing options l st Htools).
  destruct (descriptors w (descriptor_files listing)) as [evs [vs|e]] eqn:Hd;
    simpl.
  - destruct (descriptors_Return w _ _ _ Hd) as [-> Hparsed]. split.
    + split; [intros _ | by eexists].
      apply descriptors_loadable. by exists vs.
    + intros options' [= <-]. split; [done|]. split.
      * exists vs. by rewrite lookup_insert_eq.
      * intros key Hkey. by rewrite lookup_insert_ne.
  - split; [|done]. split; [by intros [? ?]|].
    intros Hall. apply descriptors_loadable in Hall as [vs Hvs]. congruence.
Qed.

Lemma load_tools_returns_iff_witness :
  initial_options Examples.w_twins !! "tools"
  = Some (VList [Examples.code_interpreter; Examples.file_search]) /\
  exists options',
    fst (load_tools Examples.w_twins ["bing.json"; "README.md"]
                    (initial_options Examples.w_twins) (mkState [] []))
    = Return options' /\
    options' !! "name" = Some (VStr "travel") /\
    snd (load_tools Examples.w_twins ["bing.json"; "README.md"]
                    (initial_options Examples.w_twins) (mkState [] []))
    = mkState [] [EvOpen "tools/bing.json"].
Proof.
  split; [reflexivity|].
  destruct (load_tools_returns_iff
              Examples.w_twins ["bing.json"; "README.md"]
              (initial_options Examples.w_twins)
              [Examples.code_interpreter; Examples.file_search]
              (mkState [] []) eq_refl) as [Hiff Hframe].
  destruct (proj2 Hiff) as [options' Hret].
  { repeat constructor. by exists "{}", (VDict []). }
  exists options'. split; [exact Hret|].
  destruct (Hframe options' Hret) as (Hstate & _ & Hkeys).
  split; [|exact Hstate].
  rewrite (Hkeys "name") by discriminate. reflexivity.
Defined.

(** * Properties of the orchestrator *)

Import Orchestrator.

(** ** Properties of the thread mapping *)

Lemma consistent_initial : consistent initial.
Proof. intros c. unfold threads_of. simpl. by rewrite lookup_empty. Qed.

Lemma threads_of_snoc (sys : System) (store : gmap string (SessionState * nat))
      (ts : list (list Message)) (c c' : string) (t : nat) :
  threads_of (mkSystem store ts (creations sys ++ [(c', t)])) c =
  (threads_of sys c ++ if decide (c' = c) then [t] else [])%list.
Proof.
  unfold threads_of. simpl. rewrite filter_app, map_app. f_equal.
  rewrite filter_cons, filter_nil. simpl. by destruct (decide (c' = c)).
Qed.

(** Resolving the Thread of a conversation keeps the system consistent,
    leaves the other sessions alone, and persists the session at hand. *)
Lemma thread_for_spec (sys : System) (c : string) :
  consistent sys ->
  let '(sys', t) := thread_for sys c in
  consistent sys' /\
  (exists v, sessions sys' !! c = Some (mkSession t, v)) /\
  (forall c' s v, sessions sys !! c' = Some (s, v) ->
                  sessions sys' !! c' = Some (s, v)).
Proof.
  intros Hc. unfold thread_for, get.
  destruct (sessions sys !! c) as [[s v]|] eqn:Hs.
  - split; [done|]. split; [|done]. exists v. by destruct s.
  - unfold put. simpl. rewrite Hs. simpl.
    split; [|split].
    + intros c'. rewrite threads_of_snoc, Hc. simpl.
      destruct (decide (c = c')) as [<-|Hne].
      * by rewrite Hs, lookup_insert_eq.
      * rewrite lookup_insert_ne by done. by rewrite app_nil_r.
    + exists 1. apply lookup_insert_eq.
    + intros c' s v Hc'. rewrite lookup_insert_ne; [done|]. congruence.
Qed.

Lemma append_messages_sessions (sys : System) (t : nat) (new : list Message) :
  sessions (append_messages sys t new) = sessions sys /\
  creations (append_messages sys t new) = creations sys.
Proof. unfold append_messages. by destruct (threads sys !! t). Qed.

Lemma consistent_ext (sys sys' : System) :
  sessions sys' = sessions sys -> creations sys' = creations sys ->
  consistent sys -> consistent sys'.
Proof.
  intros Hs Hc H c. unfold threads_of. rewrite Hs, Hc. apply H.
Qed.

Section TurnFacts.

Variable run_driver : nat -> list Message -> RunResult * list Message.

(** A turn changes the sessions and the record of created Threads only by
    resolving the Thread of its conversation. *)
Lemma handle_turn_sessions (sys : System) (c u m : string) :
  sessions (fst (handle_turn run_driver sys c u m)) = sessions (fst (thread_for sys c)) /\
  creations (fst (handle_turn run_driver sys c u m)) = creations (fst (thread_for sys c)).
Proof.
  unfold handle_turn. destruct (thread_for sys c) as [sys1 t]. simpl.
  destruct (run_driver t _) as [[] newest]; simpl;
    rewrite ?(proj1 (append_messages_sessions _ _ _)),
            ?(proj2 (append_messages_sessions _ _ _)); done.
Qed.

Lemma handle_turn_spec (sys : System) (c u m : string) :
  consistent sys ->
  consistent (fst (handle_turn run_driver sys c u m)) /\
  (exists t v, sessions (fst (handle_turn run_driver sys c u m)) !! c
               = Some (mkSession t, v)) /\
  (forall c' s v, sessions sys !! c' = Some (s, v) ->
                  sessions (fst (handle_turn run_driver sys c u m)) !! c'
                  = Some (s, v)).
Proof.
  intros Hc.
  destruct (handle_turn_sessions sys c u m) as [Hs Hcr].
  pose proof (thread_for_spec sys c Hc) as Ht.
  destruct (thread_for sys c) as [sys1 t]. simpl in *.
  destruct Ht as (Hc1 & [v Hv] & Hkeep).
  split; [by eapply consistent_ext|]. rewrite Hs. split; [by exists t, v|done].
Qed.

Lemma handle_turns_app (sys : System) (first later : list (string * string * string)) :
  handle_turns run_driver sys (first ++ later) =
  handle_turns run_driver (handle_turns run_driver sys first) later.
Proof.
  revert sys. induction first as [|[[c u] m] first IH]; intros sys; [done|].
  simpl. apply IH.
Qed.

Lemma handle_turns_spec (inbound : list (string * string * string)) :
  forall sys, consistent sys ->
    consistent (handle_turns run_driver sys inbound) /\
    (forall c s v, sessions sys !! c = Some (s, v) ->
                   sessions (handle_turns run_driver sys inbound) !! c = Some (s, v)).
Proof.
  induction inbound as [|[[c u] m] rest IH]; intros sys Hc; [done|].
  simpl. destruct (handle_turn_spec sys c u m Hc) as (Hc1 & _ & Hkeep).
  destruct (IH _ Hc1) as [Hc2 Hkeep2].
  split; [done|]. intros c' s v Hs. by apply Hkeep2, Hkeep.
Qed.

End TurnFacts.

(** C6.  Thread stability.  Whatever turns came first, once a turn of a
    conversation has been handled the conversation has a persisted Thread
    reference, and after any later turns, of this or of other conversations,
    the persisted reference is the same one, the next turn of the
    conversation resolves to it without creating a Thread, and the Threads
    ever created for the conversation are that one alone. *)
Theorem thread_stable
        (run_driver : nat -> list Message -> RunResult * list Message)
        (first later : list (string * string * string)) (c u m : string) :
  let sys1 := handle_turns run_driver initial (first ++ [(c, u, m)]) in
  exists t v,
    sessions sys1 !! c = Some (mkSession t, v) /\
    let sys2 := handle_turns run_driver sys1 later in
    sessions sys2 !! c = Some (mkSession t, v) /\
    thread_for sys2 c = (sys2, t) /\
    threads_of sys2 c = [t] /\
    forall c', length (threads_of sys2 c') <= 1.
Proof.
  intros sys1.
  destruct (handle_turns_spec run_driver first initial consistent_initial)
    as [Hc0 _].
  unfold sys1. rewrite handle_turns_app. simpl.
  set (sys0 := handle_turns run_driver initial first) in *.
  destruct (handle_turn_spec run_driver sys0 c u m Hc0) as (Hc1 & (t & v & Hv) & _).
  exists t, v. split; [done|]. cbv zeta.
  destruct (handle_turns_spec run_driver later _ Hc1) as [Hc2 Hkeep].
  specialize (Hkeep c _ _ Hv).
  set (sys2 := handle_turns run_driver _ later) in *.
  split; [done|]. split; [|split].
  - unfold thread_for, get. by rewrite Hkeep.
  - by rewrite Hc2, Hkeep.
  - intros c'. rewrite Hc2. destruct (sessions sys2 !! c') as [[s' v']|]; simpl; lia.
Qed.

(** ** Properties of the batches and of the driving loop *)

Section Batches.

Variable registry : gmap string Tool.
Variable user : string.
Variable now : nat.

Lemma answered_ids cache (calls : list ToolCall) (outputs : list ToolOutput) :
  Forall2 (answered registry user now cache) calls outputs ->
  map out_call_id outputs = map tc_id calls.
Proof.
  induction 1 as [|call output calls outputs (token & _ & ->) _ IH]; [done|].
  simpl. by rewrite IH.
Qed.

Lemma resolve_Resolved cache (calls : list ToolCall) :
  forall acc outputs,
    resolve registry cache user now calls acc = Resolved outputs ->
    exists new, outputs = (acc ++ new)%list /\ Forall2 (answered registry user now cache) calls new.
Proof.
  induction calls as [|call rest IH]; intros acc outputs; simpl.
  - intros [= <-]. exists []. by rewrite app_nil_r.
  - destruct (authorize registry cache user now call) as [token|prompt] eqn:Ha;
      [|discriminate].
    intros Hr. destruct (IH _ _ Hr) as (new & -> & Hnew).
    exists (answer registry call token :: new).
    split; [by rewrite <- app_assoc|].
    constructor; [by exists token | done].
Qed.

Lemma resolve_Suspended cache (calls : list ToolCall) :
  forall acc prompt parked,
    resolve registry cache user now calls acc = Suspended prompt parked ->
    exists before new,
      calls = (before ++ pending parked)%list /\
      resolved parked = (acc ++ new)%list /\
      Forall2 (answered registry user now cache) before new /\
      pending parked <> [].
Proof.
  induction calls as [|call rest IH]; intros acc prompt parked; simpl; [done|].
  destruct (authorize registry cache user now call) as [token|prompt'] eqn:Ha.
  - intros Hr. destruct (IH _ _ _ Hr) as (before & new & -> & -> & Hnew & Hp).
    exists (call :: before), (answer registry call token :: new).
    split; [done|]. split; [by rewrite <- app_assoc|].
    split; [|done]. constructor; [by exists token | done].
  - intros [= <- <-]. exists [], []. simpl.
    split; [done|]. split; [by rewrite app_nil_r|]. split; [constructor | done].
Qed.

Lemma resolve_authorized cache (calls : list ToolCall) :
  Forall (authorized registry user now cache) calls ->
  forall acc, exists new,
    resolve registry cache user now calls acc = Resolved (acc ++ new) /\
    Forall2 (answered registry user now cache) calls new.
Proof.
  induction 1 as [|call rest [token Ht] _ IH]; intros acc; simpl.
  - exists []. by rewrite app_nil_r.
  - rewrite Ht. destruct (IH (acc ++ [answer registry call token])%list)
      as (new & -> & Hnew).
    exists (answer registry call token :: new).
    split; [by rewrite <- app_assoc|].
    constructor; [by exists token | done].
Qed.

Lemma resolve_app cache (calls later : list ToolCall) :
  forall acc outputs,
    resolve registry cache user now calls acc = Resolved outputs ->
    resolve registry cache user now (calls ++ later) acc =
    resolve registry cache user now later outputs.
Proof.
  induction calls as [|call rest IH]; intros acc outputs; simpl.
  - by intros [= <-].
  - destruct (authorize registry cache user now call); [apply IH | done].
Qed.

Lemma resolve_shift cache (calls : list ToolCall) :
  forall acc acc' new,
    resolve registry cache user now calls acc = Resolved (acc ++ new) ->
    resolve registry cache user now calls acc' = Resolved (acc' ++ new).
Proof.
  induction calls as [|call rest IH]; intros acc acc' new; simpl.
  - intros [= Hn]. rewrite <- (app_nil_r acc) in Hn at 1.
    apply app_inv_head in Hn as <-. by rewrite app_nil_r.
  - destruct (authorize registry cache user now call) as [token|]; [|done].
    intros Hr. destruct (resolve_Resolved _ _ _ _ Hr) as (new' & Heq & _).
    rewrite <- app_assoc in Heq. apply app_inv_head in Heq as ->.
    rewrite (app_assoc acc) in Hr.
    rewrite (IH _ (acc' ++ [answer registry call token])%list _ Hr).
    by rewrite <- app_assoc.
Qed.

Lemma drive_well_answered cache backend budget (rounds : nat) :
  forall submissions,
    well_answered
      (fst (drive registry cache user now backend budget rounds submissions)).
Proof.
  induction rounds as [|rounds IH]; intros submissions; simpl;
    destruct (wait (backend submissions) budget 0) as [[]|]; simpl; try done.
  destruct calls as [|call calls].
  - specialize (IH submissions).
    destruct (drive registry cache user now backend budget rounds submissions)
      as [log result]. simpl in *. by destruct log as [|[] log].
  - destruct (resolve registry cache user now (call :: calls) [])
      as [outputs|prompt parked] eqn:Hr; [|done].
    destruct (resolve_Resolved _ _ _ _ Hr) as (new & -> & Hnew). clear Hr.
    specialize (IH (submissions ++ [new])%list).
    destruct (drive registry cache user now backend budget rounds _)
      as [log result]. simpl in *.
    split; [done|]. split; [|done].
    exact (answered_ids cache (call :: calls) new Hnew).
Qed.

End Batches.

(** C7.  A batch of N pending Tool Calls that resolves yields exactly N Tool
    Outputs whose call identifiers are, call by call, those of the pending
    calls (distinct identifiers stay distinct), whatever the handlers do; the
    same holds for a batch that was parked by the Auth Gate and resumed, which
    keeps the outputs it had.  In the driving loop every submission directly
    follows the observation of a [requires_action] with at least one pending
    call and answers exactly its calls, in one submission; with N = 0 there is
    no submission, and with N > 0, the Auth Gate willing and a round-trip
    left, there is one. *)
Theorem every_call_answered_once
        (registry : gmap string Tool)
        (cache : gmap (string * string) IdentityToken)
        (user : string) (now : nat) :
  (forall calls outputs,
      resolve registry cache user now calls [] = Resolved outputs ->
      length outputs = length calls /\
      map out_call_id outputs = map tc_id calls /\
      (NoDup (map tc_id calls) -> NoDup (map out_call_id outputs))) /\
  (forall calls prompt parked signed_in token outputs,
      resolve registry cache user now calls [] = Suspended prompt parked ->
      resume registry cache user now parked signed_in token = Resolved outputs ->
      length outputs = length calls /\
      map out_call_id outputs = map tc_id calls /\
      exists new, outputs = (resolved parked ++ new)%list) /\
  (forall backend budget rounds submissions,
      well_answered
        (fst (drive registry cache user now backend budget rounds submissions))) /\
  (forall backend budget rounds submissions,
      wait (backend submissions) budget 0 = Some (requires_action []) ->
      drive registry cache user now backend budget (S rounds) submissions =
      (Observed (requires_action [])
         :: fst (drive registry cache user now backend budget rounds submissions),
       snd (drive registry cache user now backend budget rounds submissions))) /\
  (forall backend budget rounds submissions calls,
      wait (backend submissions) budget 0 = Some (requires_action calls) ->
      calls <> [] ->
      Forall (authorized registry user now cache) calls ->
      exists outputs,
        length outputs = length calls /\
        map out_call_id outputs = map tc_id calls /\
        drive registry cache user now backend budget (S rounds) submissions =
        (Observed (requires_action calls) :: Submitted outputs
           :: fst (drive registry cache user now backend budget rounds
                         (submissions ++ [outputs])),
         snd (drive registry cache user now backend budget rounds
                    (submissions ++ [outputs])))).
Proof.
  split; [|split; [|split; [|split]]].
  - intros calls outputs Hr.
    destruct (resolve_Resolved _ _ _ _ _ _ _ Hr) as (new & -> & Hnew).
    pose proof (answered_ids _ _ _ _ _ _ Hnew) as Hids. simpl.
    split; [|split; [done|by rewrite Hids]].
    by rewrite <- (length_map out_call_id), Hids, length_map.
  - intros calls prompt parked signed_in token outputs Hs Hr.
    destruct (resolve_Suspended _ _ _ _ _ _ _ _ Hs)
      as (before & new & -> & Hres & Hnew & _).
    unfold resume in Hr.
    destruct (resolve_Resolved _ _ _ _ _ _ _ Hr) as (new' & -> & Hnew').
    simpl in Hres. rewrite Hres.
    pose proof (answered_ids _ _ _ _ _ _ Hnew) as Hids.
    pose proof (answered_ids _ _ _ _ _ _ Hnew') as Hids'.
    assert (Hall : map out_call_id (new ++ new') =
                   map tc_id (before ++ pending parked))
      by (by rewrite !map_app, Hids, Hids').
    split; [|split; [done|by exists new']].
    by rewrite <- (length_map out_call_id), Hall, length_map.
  - intros. apply drive_well_answered.
  - intros backend budget rounds submissions Hw. simpl. rewrite Hw.
    by destruct (drive registry cache user now backend budget rounds submissions).
  - intros backend budget rounds submissions calls Hw Hne Hauth.
    destruct (resolve_authorized _ _ _ _ _ Hauth []) as (outputs & Hr & Hnew).
    pose proof (answered_ids _ _ _ _ _ _ Hnew) as Hids.
    exists outputs. split; [|split; [done|]].
    { by rewrite <- (length_map out_call_id), Hids, length_map. }
    simpl. rewrite Hw. destruct calls as [|call calls]; [done|].
    rewrite Hr. simpl.
    by destruct (drive registry cache user now backend budget rounds _).
Qed.

(** C8.  A Tool Call whose tool fails (its arguments do not validate, its
    handler raises, or its handler times out) is answered by an error Tool
    Output under its own call identifier.  In a batch the Auth Gate lets
    through, the calls before and after it get the outputs they get without
    it, the batch resolves, and the Run Driver submits the outputs and goes on
    driving the Run. *)
Theorem failing_tool_is_answered
        (registry : gmap string Tool)
        (cache : gmap (string * string) IdentityToken)
        (user : string) (now : nat)
        (before after : list ToolCall) (call : ToolCall)
        (tool : Tool) (token : option string) (kind : error_kind) :
  registry !! tc_name call = Some tool ->
  authorize registry cache user now call = Proceed token ->
  fails tool (tc_arguments call) token kind ->
  Forall (authorized registry user now cache) before ->
  Forall (authorized registry user now cache) after ->
  answer registry call token = mkToolOutput (tc_id call) (Error kind) /\
  exists outputs_before outputs_after,
    resolve registry cache user now before [] = Resolved outputs_before /\
    resolve registry cache user now after [] = Resolved outputs_after /\
    let outputs := (outputs_before
                      ++ mkToolOutput (tc_id call) (Error kind) :: outputs_after)%list in
    resolve registry cache user now (before ++ call :: after) [] = Resolved outputs /\
    forall backend budget rounds submissions,
      wait (backend submissions) budget 0
      = Some (requires_action (before ++ call :: after)) ->
      drive registry cache user now backend budget (S rounds) submissions =
      (Observed (requires_action (before ++ call :: after)) :: Submitted outputs
         :: fst (drive registry cache user now backend budget rounds
                       (submissions ++ [outputs])),
       snd (drive registry cache user now backend budget rounds
                  (submissions ++ [outputs]))).
Proof.
  intros Htool Hauth Hfail Hbefore Hafter.
  assert (Hanswer : answer registry call token
                    = mkToolOutput (tc_id call) (Error kind)).
  { unfold answer, invoke. rewrite Htool.
    destruct Hfail as [-> | e -> -> | -> ->]; done. }
  split; [done|].
  destruct (resolve_authorized _ _ _ _ _ Hbefore []) as (ob & Hb & Hnb).
  destruct (resolve_authorized _ _ _ _ _ Hafter []) as (oa & Ha & Hna).
  exists ob, oa. split; [done|]. split; [done|]. cbv zeta.
  assert (Hall : resolve registry cache user now (before ++ call :: after) []
                 = Resolved (ob ++ mkToolOutput (tc_id call) (Error kind) :: oa)).
  { rewrite (resolve_app _ _ _ _ _ _ _ _ Hb). simpl. rewrite Hauth, Hanswer.
    rewrite (resolve_shift _ _ _ _ _ [] _ oa Ha).
    by rewrite <- app_assoc. }
  split; [done|].
  intros backend budget rounds submissions Hw. simpl. rewrite Hw.
  destruct (before ++ call :: after)%list as [|c cs] eqn:Hcs.
  { by destruct before. }
  rewrite Hall. simpl.
  by destruct (drive registry cache user now backend budget rounds _).
Qed.

Lemma thread_stable_witness :
  let sys2 := handle_turns example_driver initial
                           [("conv_a", "u", "hello"); ("conv_b", "v", "hi");
                            ("conv_a", "u", "again")] in
  sessions sys2 !! "conv_a" = Some (mkSession 0, 1) /\
  threads_of sys2 "conv_a" = [0] /\
  length (threads sys2) = 2.
Proof.
  destruct (thread_stable example_driver [] [("conv_b", "v", "hi");
                                             ("conv_a", "u", "again")]
                          "conv_a" "u" "hello")
    as (t & v & Hfirst & Hlater & _ & Hthreads & _).
  injection Hfirst as <- <-.
  split; [exact Hlater|]. split; [exact Hthreads | reflexivity].
Defined.

Lemma every_call_answered_once_witness :
  resolve example_registry ∅ "u" 0 example_calls [] =
  Resolved [mkToolOutput "call_1" (Success (VStr "results"));
            mkToolOutput "call_2" (Error (handler_exception (Exception "boom")));
            mkToolOutput "call_3" (Success (VStr "results"))] /\
  length [mkToolOutput "call_1" (Success (VStr "results"));
          mkToolOutput "call_2" (Error (handler_exception (Exception "boom")));
          mkToolOutput "call_3" (Success (VStr "results"))] = length example_calls /\
  well_answered
    (fst (drive example_registry ∅ "u" 0
                (fun _ _ => requires_action []) 1 2 [])).
Proof.
  destruct (every_call_answered_once example_registry ∅ "u" 0)
    as (Hbatch & _ & Hlog & _).
  split; [reflexivity|]. split.
  - exact (proj1 (Hbatch example_calls _ eq_refl)).
  - apply Hlog.
Defined.

Lemma failing_tool_is_answered_witness :
  example_registry !! "flaky" = Some flaky /\
  resolve example_registry ∅ "u" 0 example_calls [] =
  Resolved [mkToolOutput "call_1" (Success (VStr "results"));
            mkToolOutput "call_2" (Error (handler_exception (Exception "boom")));
            mkToolOutput "call_3" (Success (VStr "results"))].
Proof.
  split; [reflexivity|].
  destruct (failing_tool_is_answered
              example_registry ∅ "u" 0
              [mkToolCall "call_1" "bing_search" VNone]
              [mkToolCall "call_3" "bing_search" VNone]
              (mkToolCall "call_2" "flaky" VNone)
              flaky None (handler_exception (Exception "boom"))
              eq_refl eq_refl
              (fails_exception flaky VNone None (Exception "boom")
                               eq_refl eq_refl)
              ltac:(repeat constructor; by exists None)
              ltac:(repeat constructor; by exists None))
    as (_ & ob & oa & Hb & Ha & Hall & _).
  injection Hb as <-. injection Ha as <-. exact Hall.
Defined.

